(** * DupeChecker: duplicate (#Channel, #Cue) pairs across CSV files

    A shallow embedding of [DupeChecker.py].  The script reads every file
    with [pd.read_csv(path, header=2)], walks the rows of the frame,
    groups the locations of every (channel, cue) pair in a
    [defaultdict(list)] and finally prints every pair that was seen more
    than once.

    What the Python code prints becomes a list of structured messages;
    the [defaultdict] becomes an association list in insertion order
    (Python dictionaries iterate in insertion order, and the report
    depends on it); exceptions become values of a small error monad. *)

From Stdlib Require Import List ZArith String Ascii Bool Arith Lia Permutation Sorted.
Import ListNotations.

Local Open Scope string_scope.
Local Open Scope list_scope.

(** ** Exceptions and the error monad *)

Inductive Exn : Type :=
| EmptyDataError               (* pd.errors.EmptyDataError *)
| ParserError                  (* pd.errors.ParserError *)
| ValueError
| OverflowError
| OtherError (cause : string). (* any other subclass of Exception *)

Inductive result (A : Type) : Type :=
| Ok (a : A)
| Raise (e : Exn).
Arguments Ok {A} a.
Arguments Raise {A} e.

Definition ret {A} (a : A) : result A := Ok a.

Definition bind {A B} (c : result A) (k : A -> result B) : result B :=
  match c with
  | Ok a => k a
  | Raise e => Raise e
  end.

Notation "x <- c ;; k" := (bind c (fun x => k))
  (at level 61, c at next level, right associativity).

(** [try: body except ValueError: handler]. Every other exception
    propagates. *)
Definition try_except_ValueError {A} (body : result A) (handler : A) : result A :=
  match body with
  | Raise ValueError => Ok handler
  | r => r
  end.

(** ** Cell values

    A [Cell] is what [row['#Channel']] evaluates to for a row yielded by
    [df.iterrows()]: a missing value, an integer, a float (finite, given
    as [m * 2^e], or infinite), a boolean, or a string of an object
    column. *)

Inductive Cell : Type :=
| NaN
| IntCell (z : Z)
| FloatCell (m e : Z)
| InfCell (negative : bool)
| BoolCell (b : bool)
| StrCell (s : string).

(** [pd.isna] *)
Definition isna (c : Cell) : bool :=
  match c with
  | NaN => true
  | _ => false
  end.

(** *** [int(str)]

    The text of a cell is a Python [str] with code points below 256, one
    [ascii] for each code point; text with higher code points is outside
    the model.  Base ten: surrounding whitespace is skipped (tab to
    carriage return and the space; of the code points from 127 on, the
    two that are whitespace, U+0085 and U+00A0), one optional sign
    follows, then a non-empty run of the digits 0 to 9 in which single
    underscores may separate digits.  Every other character, the
    separators U+001C to U+001F among them, makes the text invalid, and
    so do more digits than the interpreter's default limit of 4300.  An
    invalid text raises [ValueError]. *)

Definition is_space (a : ascii) : bool :=
  let n := nat_of_ascii a in
  (((9 <=? n) && (n <=? 13)) || (n =? 32) || (n =? 133) || (n =? 160))%nat.

Definition digit_of (a : ascii) : option Z :=
  let n := nat_of_ascii a in
  if ((48 <=? n) && (n <=? 57))%nat then Some (Z.of_nat (n - 48)) else None.

Fixpoint lstrip (s : list ascii) : list ascii :=
  match s with
  | a :: r => if is_space a then lstrip r else s
  | [] => []
  end.

Definition strip (s : list ascii) : list ascii :=
  rev (lstrip (rev (lstrip s))).

Fixpoint parse_digits (s : list ascii) (acc : Z) (after_digit : bool) : option Z :=
  match s with
  | [] => if after_digit then Some acc else None
  | a :: r =>
      match digit_of a with
      | Some d => parse_digits r (acc * 10 + d) true
      | None =>
          if Ascii.eqb a "_"%char && after_digit then parse_digits r acc false
          else None
      end
  end.

(** [sys.get_int_max_str_digits()] as the interpreter starts. *)
Definition int_max_str_digits : nat := 4300.

(** The digits of a text, underscores not counted. *)
Definition count_digits (s : list ascii) : nat :=
  List.length (filter (fun a => match digit_of a with
                                | Some _ => true
                                | None => false
                                end) s).

Definition int_of_str (s : string) : result Z :=
  let body := strip (list_ascii_of_string s) in
  let '(negative, digits) :=
    match body with
    | a :: r =>
        if Ascii.eqb a "-"%char then (true, r)
        else if Ascii.eqb a "+"%char then (false, r)
        else (false, body)
    | [] => (false, body)
    end in
  match parse_digits digits 0 false with
  | Some n =>
      if (int_max_str_digits <? count_digits digits)%nat then Raise ValueError
      else Ok (if negative then - n else n)%Z
  | None => Raise ValueError
  end.

(** *** [int(x)] on a cell value: floats truncate toward zero, an
    infinite float raises [OverflowError], a NaN and a string that is no
    integer literal raise [ValueError]. *)
Definition py_int (c : Cell) : result Z :=
  match c with
  | NaN => Raise ValueError
  | IntCell z => Ok z
  | FloatCell m e =>
      Ok (if (0 <=? e)%Z then m * 2 ^ e else Z.quot m (2 ^ (- e)))%Z
  | InfCell _ => Raise OverflowError
  | BoolCell b => Ok (if b then 1 else 0)%Z
  | StrCell s => int_of_str s
  end.

(** ** Files and frames *)

Definition Row : Type := list Cell.

Record DataFrame : Type := mkFrame {
  columns : list string;
  rows : list Row   (* row [idx] of the default RangeIndex is [nth idx rows] *)
}.

(** A field of a physical line: its text, and the cell value the parser
    makes of it when the line is a data line. *)
Record Field : Type := mkField {
  text : string;
  value : Cell
}.

(** A physical line of a CSV file, read as the header line (column
    labels) or as a data line (cells). *)
Definition Line : Type := list Field.
Definition names (l : Line) : list string := map text l.
Definition cells (l : Line) : Row := map value l.

Inductive FileContent : Type :=
| Text (lines : list Line)
| Garbled                      (* the tokenizer rejects the content *)
| Unreadable (cause : string). (* reading fails in some other way *)

(** The file system: [None] when [os.path.exists] is false. *)
Definition FS : Type := string -> option FileContent.

(** Modelled from the spec: [pd.read_csv(path, header=2)] is a pandas
    function, not code of this repository.  Following section 4.1 of the
    specification, the first two physical lines are discarded, the third
    line supplies the column names and the data rows are the lines from
    the fourth on; a file without content raises [EmptyDataError], content
    that does not parse (here also: fewer lines than the header position)
    raises [ParserError], anything else some other exception. *)
Definition read_csv (content : FileContent) : result DataFrame :=
  match content with
  | Text [] => Raise EmptyDataError
  | Text (_ :: _ :: header :: data) => Ok (mkFrame (names header) (map cells data))
  | Text _ => Raise ParserError
  | Garbled => Raise ParserError
  | Unreadable cause => Raise (OtherError cause)
  end.

(** The 1-based physical line [n] of a file. *)
Definition physical_line (lines : list Line) (n : nat) : option Line :=
  match n with
  | 0 => None
  | S k => nth_error lines k
  end.

(** [row[name]]: the cell under the column labelled [name]; a row shorter
    than the header is padded with missing values. *)
Fixpoint row_get (cols : list string) (row : Row) (name : string) : Cell :=
  match cols, row with
  | c :: cols', v :: row' => if String.eqb c name then v else row_get cols' row' name
  | _, _ => NaN
  end.

(** ** The occurrence index: [pair_origins = defaultdict(list)] *)

Definition Pair : Type := (Z * Z)%type.
Definition Occurrence : Type := (string * nat)%type.
Definition Index : Type := list (Pair * list Occurrence).

Definition pair_eqb (p q : Pair) : bool :=
  (fst p =? fst q)%Z && (snd p =? snd q)%Z.

(** [pair_origins[pair].append(occ)]: a new key enters at the end with the
    one-element list, an existing key keeps its place. *)
Fixpoint append_occ (pair : Pair) (occ : Occurrence) (m : Index) : Index :=
  match m with
  | [] => [(pair, [occ])]
  | (k, occs) :: m' =>
      if pair_eqb k pair then (k, occs ++ [occ]) :: m'
      else (k, occs) :: append_occ pair occ m'
  end.

(** The occurrences recorded under a pair (none when the key is absent). *)
Fixpoint lookup (pair : Pair) (m : Index) : list Occurrence :=
  match m with
  | [] => []
  | (k, occs) :: m' => if pair_eqb k pair then occs else lookup pair m'
  end.

Definition keys (m : Index) : list Pair := map fst m.

(** ** Output *)

Inductive Msg : Type :=
| Banner (n : nat)                        (* --- Starting Duplicate Check across n files --- *)
| Rule                                    (* "-" * 70 *)
| Note                                    (* NOTE: Line numbers refer to ... *)
| ErrNotFound (file_path : string)        (* ERROR: File not found: ... Skipping. *)
| WarnMissingColumns (file_path : string) (* WARNING: File ... is missing one or more required columns *)
| HintColumns                             (* Ensure these column names exist in the 3rd row *)
| WarnBadRow (line : nat) (file_path : string) (* WARNING: Skipping row n in ... *)
| WarnEmpty (file_path : string)          (* WARNING: File ... is empty. Skipping. *)
| ErrParse (file_path : string)           (* ERROR: Could not parse CSV file ... *)
| ErrUnexpected (file_path : string) (e : Exn) (* An unexpected error occurred while processing ... *)
| SummaryHeader                           (* --- Duplicate Report Summary --- *)
| DupFound (channel cue : Z)              (* DUPLICATE PAIR FOUND: Channel c, Cue q *)
| TotalOccurrences (n : nat)              (* Total occurrences: n *)
| LocationsHeader                         (* Locations: *)
| Location (file_path : string) (line : nat) (* -> File: '...' (Line: n) *)
| Success                                 (* SUCCESS: No duplicate ... *)
| Completed.                              (* COMPLETED: Review the ... *)

(** ** Phase 1: one row, one file, all files *)

Definition required_columns : list string := ["#Channel"; "#Cue"].

(** The body of the [for idx, row in df.iterrows()] loop.  [Raise e] means
    that [e] leaves the loop; the index is then as it was before the row. *)
Definition process_row (file_path : string) (cols : list string) (idx : nat)
    (row : Row) (pair_origins : Index) : result (Index * list Msg) :=
  let ch := row_get cols row "#Channel" in
  let cu := row_get cols row "#Cue" in
  if isna ch || isna cu then Ok (pair_origins, [])
  else
    try_except_ValueError
      (channel <- py_int ch ;;
       cue <- py_int cu ;;
       let pair := (channel, cue) in
       let csv_line_number := idx + 3 in
       ret (append_occ pair (file_path, csv_line_number) pair_origins, []))
      (pair_origins, [WarnBadRow (idx + 3) file_path]).

(** The row loop from row [idx] on.  It returns the index and the messages
    printed so far together with the exception that ended it, if any: what
    was appended before the exception stays in the dictionary. *)
Fixpoint iterrows_loop (file_path : string) (cols : list string) (idx : nat)
    (rs : list Row) (pair_origins : Index) : Index * list Msg * option Exn :=
  match rs with
  | [] => (pair_origins, [], None)
  | row :: rest =>
      match process_row file_path cols idx row pair_origins with
      | Raise e => (pair_origins, [], Some e)
      | Ok (m, out) =>
          let '(m', out', exn) := iterrows_loop file_path cols (S idx) rest m in
          (m', out ++ out', exn)
      end
  end.

(** The three [except] clauses around the work on one file. *)
Definition handler (file_path : string) (e : Exn) : Msg :=
  match e with
  | EmptyDataError => WarnEmpty file_path
  | ParserError => ErrParse file_path
  | _ => ErrUnexpected file_path e
  end.

Definition has_required_columns (cols : list string) : bool :=
  forallb (fun col => existsb (String.eqb col) cols) required_columns.

(** The body of [for file_path in file_paths]. *)
Definition process_file (fs : FS) (file_path : string) (pair_origins : Index)
    : Index * list Msg :=
  match fs file_path with
  | None => (pair_origins, [ErrNotFound file_path])
  | Some content =>
      match read_csv content with
      | Raise e => (pair_origins, [handler file_path e])
      | Ok df =>
          if negb (has_required_columns (columns df)) then
            (pair_origins, [WarnMissingColumns file_path; HintColumns])
          else
            match iterrows_loop file_path (columns df) 0 (rows df) pair_origins with
            | (m, out, None) => (m, out)
            | (m, out, Some e) => (m, out ++ [handler file_path e])
            end
      end
  end.

Fixpoint process_files (fs : FS) (file_paths : list string) (pair_origins : Index)
    : Index * list Msg :=
  match file_paths with
  | [] => (pair_origins, [])
  | file_path :: rest =>
      let '(m, out) := process_file fs file_path pair_origins in
      let '(m', out') := process_files fs rest m in
      (m', out ++ out')
  end.

(** ** Phase 2: the report *)

Definition show_location (occ : Occurrence) : Msg :=
  let '(file_path, line_number) := occ in Location file_path (line_number + 1).

Definition report_block (pair : Pair) (occurrences : list Occurrence) : list Msg :=
  let '(channel, cue) := pair in
  DupFound channel cue :: TotalOccurrences (List.length occurrences) :: LocationsHeader
    :: map show_location occurrences.

(** [for pair, occurrences in pair_origins.items()], threading the flag
    [duplicates_found] ([key] is the source's [pair]). *)
Fixpoint report_loop (m : Index) (duplicates_found : bool) : list Msg * bool :=
  match m with
  | [] => ([], duplicates_found)
  | (key, occurrences) :: rest =>
      if (1 <? List.length occurrences)%nat then
        let '(out, found) := report_loop rest true in
        (report_block key occurrences ++ out, found)
      else report_loop rest duplicates_found
  end.

Definition closing (duplicates_found : bool) : Msg :=
  if negb duplicates_found then Success else Completed.

(** ** The whole function and the command line *)

(** The dictionary when phase 1 is over. *)
Definition final_index (fs : FS) (file_paths : list string) : Index :=
  fst (process_files fs file_paths []).

Definition check_duplicate_channel_cue (fs : FS) (file_paths : list string) : list Msg :=
  let '(pair_origins, diagnostics) := process_files fs file_paths [] in
  let '(blocks, duplicates_found) := report_loop pair_origins false in
  [Banner (List.length file_paths); Rule; Note; Rule]
    ++ diagnostics
    ++ [Rule; SummaryHeader]
    ++ blocks
    ++ [Rule; closing duplicates_found].

(** How the process ends.  [files] is what [parser.parse_args()] collects
    for the positional argument declared with [nargs='+']. *)
Inductive Outcome : Type :=
| UsageError                      (* argparse prints the usage and exits *)
| Finished (stdout : list Msg).   (* the function returned *)

Definition main (fs : FS) (files : list string) : Outcome :=
  match files with
  | [] => UsageError
  | _ => Finished (check_duplicate_channel_cue fs files)
  end.

(** ** Notions used by the properties *)

(** The key pair of a row with non-missing, integer-convertible values in
    both key columns. *)
Definition valid_key (cols : list string) (row : Row) : option Pair :=
  let ch := row_get cols row "#Channel" in
  let cu := row_get cols row "#Cue" in
  if isna ch || isna cu then None
  else
    match py_int ch, py_int cu with
    | Ok channel, Ok cue => Some (channel, cue)
    | _, _ => None
    end.

(** The conversion of both keys, in the order of the [try] body. *)
Definition convert_keys (cols : list string) (row : Row) : result Pair :=
  channel <- py_int (row_get cols row "#Channel") ;;
  cue <- py_int (row_get cols row "#Cue") ;;
  ret (channel, cue).

Definition missing_key (cols : list string) (row : Row) : bool :=
  isna (row_get cols row "#Channel") || isna (row_get cols row "#Cue").

(** The four ways a row can go. *)
Inductive RowStatus : Type :=
| MissingKey
| ValidKey (p : Pair)
| InvalidKey               (* the conversion raises ValueError *)
| FatalKey (e : Exn).      (* the conversion raises something else *)

Definition row_status (cols : list string) (row : Row) : RowStatus :=
  if missing_key cols row then MissingKey
  else
    match convert_keys cols row with
    | Ok p => ValidKey p
    | Raise ValueError => InvalidKey
    | Raise e => FatalKey e
    end.

Definition is_fatal (cols : list string) (row : Row) : bool :=
  match row_status cols row with
  | FatalKey _ => true
  | _ => false
  end.

(** The rows the loop gets to: those before the first fatal row. *)
Fixpoint reached (cols : list string) (rs : list Row) : list Row :=
  match rs with
  | [] => []
  | row :: rest => if is_fatal cols row then [] else row :: reached cols rest
  end.

Definition Entry : Type := (Pair * Occurrence)%type.

(** The occurrence a numbered row stands for, if its keys are valid. *)
Definition row_entry (file_path : string) (cols : list string) (ir : nat * Row)
    : list Entry :=
  match valid_key cols (snd ir) with
  | Some p => [(p, (file_path, fst ir + 3))]
  | None => []
  end.

(** Rows numbered from [i] on, as [df.iterrows()] numbers them. *)
Definition enumerate_from (i : nat) (rs : list Row) : list (nat * Row) :=
  combine (seq i (List.length rs)) rs.

Definition rows_entries (file_path : string) (cols : list string) (i : nat)
    (rs : list Row) : list Entry :=
  flat_map (row_entry file_path cols) (enumerate_from i rs).

(** The frame of a file that exists, parses and has both key columns. *)
Definition frame_of (fs : FS) (file_path : string) : option DataFrame :=
  match fs file_path with
  | None => None
  | Some content =>
      match read_csv content with
      | Ok df => if has_required_columns (columns df) then Some df else None
      | Raise _ => None
      end
  end.

(** Valid-key rows of a file, all of them ... *)
Definition file_valid_rows (fs : FS) (file_path : string) : list Entry :=
  match frame_of fs file_path with
  | Some df => rows_entries file_path (columns df) 0 (rows df)
  | None => []
  end.

(** ... and those among the rows the loop reaches. *)
Definition file_entries (fs : FS) (file_path : string) : list Entry :=
  match frame_of fs file_path with
  | Some df => rows_entries file_path (columns df) 0 (reached (columns df) (rows df))
  | None => []
  end.

Definition valid_rows (fs : FS) (file_paths : list string) : list Entry :=
  flat_map (file_valid_rows fs) file_paths.

Definition entries (fs : FS) (file_paths : list string) : list Entry :=
  flat_map (file_entries fs) file_paths.

Definition occurrences_of (p : Pair) (es : list Entry) : list Occurrence :=
  map snd (filter (fun e => pair_eqb (fst e) p) es).

(** Recording a list of entries one after the other. *)
Definition record_all (es : list Entry) (m : Index) : Index :=
  fold_left (fun acc e => append_occ (fst e) (snd e) acc) es m.

(** A file that fails before any row is looked at, with its diagnostic. *)
Definition read_failure (fs : FS) (file_path : string) : option Msg :=
  match fs file_path with
  | None => Some (ErrNotFound file_path)
  | Some content =>
      match read_csv content with
      | Raise e => Some (handler file_path e)
      | Ok _ => None
      end
  end.

Definition is_duplicate (e : Pair * list Occurrence) : bool :=
  (1 <? List.length (snd e))%nat.

(** The blocks of all duplicate pairs, in the order of the dictionary. *)
Definition blocks_of (m : Index) : list Msg :=
  flat_map (fun e => report_block (fst e) (snd e)) (filter is_duplicate m).

(** The output contains the report block of [p] with the locations [occs]. *)
Definition prints_block (out : list Msg) (p : Pair) (occs : list Occurrence) : Prop :=
  exists before after,
    out = before ++ report_block p occs ++ after
    /\ ~ In (DupFound (fst p) (snd p)) before
    /\ ~ In (DupFound (fst p) (snd p)) after
    /\ (forall f l, hd_error after <> Some (Location f l)).

(** Messages of phase 1. *)
Definition is_diagnostic (msg : Msg) : bool :=
  match msg with
  | ErrNotFound _ | WarnMissingColumns _ | HintColumns | WarnBadRow _ _
  | WarnEmpty _ | ErrParse _ | ErrUnexpected _ _ => true
  | _ => false
  end.

(** Every list in the dictionary holds at least one occurrence. *)
Definition no_empty_list (m : Index) : Prop :=
  Forall (fun e => snd e <> []) m.

(** ** Notions used by the further properties *)

(** The pairs of a list in the order in which they are first seen. *)
Fixpoint first_seen (ps : list Pair) : list Pair :=
  match ps with
  | [] => []
  | p :: rest => p :: filter (fun q => negb (pair_eqb p q)) (first_seen rest)
  end.

(** The pairs named by the DUPLICATE PAIR FOUND lines of an output, in
    the order of the lines. *)
Definition reported_pairs (out : list Msg) : list Pair :=
  flat_map (fun msg => match msg with
                       | DupFound channel cue => [(channel, cue)]
                       | _ => []
                       end) out.

(** Messages of a report block. *)
Definition is_block_msg (msg : Msg) : bool :=
  match msg with
  | DupFound _ _ | TotalOccurrences _ | LocationsHeader | Location _ _ => true
  | _ => false
  end.

(** The number of occurrences held by the dictionary, all keys together. *)
Definition total_occurrences (m : Index) : nat :=
  List.length (List.concat (map snd m)).

(** The warning of a numbered row, if its conversion raises ValueError. *)
Definition row_warning (file_path : string) (cols : list string) (ir : nat * Row)
    : list Msg :=
  match row_status cols (snd ir) with
  | InvalidKey => [WarnBadRow (fst ir + 3) file_path]
  | _ => []
  end.

(** The warnings of the rows the loop reaches, in row order. *)
Definition rows_warnings (file_path : string) (cols : list string) (i : nat)
    (rs : list Row) : list Msg :=
  flat_map (row_warning file_path cols) (enumerate_from i (reached cols rs)).

(** No row raises another error than ValueError. *)
Definition no_fatal_row (cols : list string) (rs : list Row) : bool :=
  forallb (fun row => negb (is_fatal cols row)) rs.

(** The cell under a label in a row given as labelled cells. *)
Definition labelled_get (l : list (string * Cell)) (name : string) : Cell :=
  match find (fun x => String.eqb (fst x) name) l with
  | Some x => snd x
  | None => NaN
  end.

(** ** Sample files *)

Module Samples.

Definition preamble : Line := [mkField "Finale cue sheet" (StrCell "Finale cue sheet")].

Definition header : Line :=
  [mkField "#Channel" (StrCell "#Channel"); mkField "#Cue" (StrCell "#Cue");
   mkField "Name" (StrCell "Name")].

(** The header with a key column in lower case. *)
Definition header_lower : Line :=
  [mkField "#channel" (StrCell "#channel"); mkField "#Cue" (StrCell "#Cue")].

Definition int_field (txt : string) (z : Z) : Field := mkField txt (IntCell z).

Definition data (ch cu : Field) : Line := [ch; cu; mkField "Comet" (StrCell "Comet")].

Definition one := int_field "1" 1.
Definition two := int_field "2" 2.
Definition seven := int_field "7" 7.
Definition inf := mkField "inf" (InfCell false).
Definition abc := mkField "abc" (StrCell "abc").
Definition blank := mkField EmptyString NaN.

(** In a column that holds "inf" the other numbers are floats, and in a
    column that holds text they stay text. *)
Definition one_float := mkField "1" (FloatCell 1 0).
Definition three_float := mkField "3" (FloatCell 3 0).
Definition two_text := mkField "2" (StrCell "2").

(** Rows (1,1) on lines 4 and 6. *)
Definition file_A : list Line :=
  [preamble; preamble; header; data one one; data two one; data one one].

(** A row with an infinite channel between two rows (1,1). *)
Definition file_B : list Line :=
  [preamble; preamble; header; data one_float one; data inf one; data one_float one].

(** A text key, a blank key, then a plain row. *)
Definition file_C : list Line :=
  [preamble; preamble; header; data abc one; data blank one; data two_text seven].

(** Two rows (3,7), an infinite channel, one more row (3,7). *)
Definition file_E : list Line :=
  [preamble; preamble; header; data three_float seven; data three_float seven;
   data inf one; data three_float seven].

Definition file_lower : list Line :=
  [preamble; preamble; header_lower; data one one; data one one].

Definition fs : FS := fun file_path =>
  if String.eqb file_path "A.csv" then Some (Text file_A)
  else if String.eqb file_path "B.csv" then Some (Text file_B)
  else if String.eqb file_path "C.csv" then Some (Text file_C)
  else if String.eqb file_path "E.csv" then Some (Text file_E)
  else if String.eqb file_path "lower.csv" then Some (Text file_lower)
  else if String.eqb file_path "empty.csv" then Some (Text [])
  else if String.eqb file_path "garbled.csv" then Some Garbled
  else if String.eqb file_path "locked.csv" then Some (Unreadable "Permission denied")
  else None.

End Samples.

(** ** Basic facts *)

Lemma pair_eqb_eq (p q : Pair) : pair_eqb p q = true <-> p = q.
Proof.
  destruct p as [a b], q as [c d]; unfold pair_eqb; simpl.
  rewrite andb_true_iff, !Z.eqb_eq.
  split; [intros [-> ->]; reflexivity | intros H; inversion H; auto].
Qed.

Lemma pair_eqb_refl (p : Pair) : pair_eqb p p = true.
Proof. apply pair_eqb_eq; reflexivity. Qed.

Lemma pair_eqb_neq (p q : Pair) : pair_eqb p q = false <-> p <> q.
Proof.
  rewrite <- pair_eqb_eq. destruct (pair_eqb p q); split; congruence.
Qed.

Lemma py_int_raises (c : Cell) (e : Exn) :
  py_int c = Raise e -> e = ValueError \/ e = OverflowError.
Proof.
  destruct c; simpl; try discriminate; try (intros [= <-]; auto).
  unfold int_of_str.
  destruct (match strip (list_ascii_of_string s) with
            | [] => _ | _ :: _ => _ end) as [neg ds].
  destruct (parse_digits ds 0 false); [|intros [= <-]; auto].
  destruct (int_max_str_digits <? count_digits ds)%nat;
    [intros [= <-]; auto | discriminate].
Qed.

Lemma convert_keys_raises cols row e :
  convert_keys cols row = Raise e -> e = ValueError \/ e = OverflowError.
Proof.
  unfold convert_keys, bind, ret.
  destruct (py_int (row_get cols row "#Channel")) eqn:Hc.
  - destruct (py_int (row_get cols row "#Cue")) eqn:Hq; [discriminate|].
    intros [= <-]. eapply py_int_raises; eauto.
  - intros [= <-]. eapply py_int_raises; eauto.
Qed.

Lemma row_status_fatal cols row e :
  row_status cols row = FatalKey e -> e = OverflowError.
Proof.
  unfold row_status. destruct (missing_key cols row); [discriminate|].
  destruct (convert_keys cols row) as [p|e'] eqn:Hc; [discriminate|].
  apply convert_keys_raises in Hc.
  destruct Hc as [-> | ->]; [discriminate | intros [= <-]; reflexivity].
Qed.

Lemma valid_key_status cols row p :
  valid_key cols row = Some p <-> row_status cols row = ValidKey p.
Proof.
  unfold valid_key, row_status, missing_key, convert_keys, bind, ret.
  destruct (isna _ || isna _); [split; discriminate|].
  destruct (py_int (row_get cols row "#Channel")) as [c|[]];
    try (split; discriminate);
    destruct (py_int (row_get cols row "#Cue")) as [q|[]];
    split; intros H; inversion H; reflexivity.
Qed.

(** The loop body, case by case. *)
Lemma process_row_status file_path cols idx row m :
  process_row file_path cols idx row m =
  match row_status cols row with
  | MissingKey => Ok (m, [])
  | ValidKey p => Ok (append_occ p (file_path, idx + 3) m, [])
  | InvalidKey => Ok (m, [WarnBadRow (idx + 3) file_path])
  | FatalKey e => Raise e
  end.
Proof.
  unfold process_row, row_status, missing_key, convert_keys,
    try_except_ValueError, bind, ret.
  destruct (isna _ || isna _); [reflexivity|].
  destruct (py_int (row_get cols row "#Channel")) as [c|[]]; try reflexivity;
    destruct (py_int (row_get cols row "#Cue")) as [q|[]]; reflexivity.
Qed.

(** ** The dictionary *)

Lemma lookup_append_occ p q o m :
  lookup p (append_occ q o m) =
  if pair_eqb q p then lookup p m ++ [o] else lookup p m.
Proof.
  induction m as [|[k occs] m IH]; simpl.
  - destruct (pair_eqb q p); reflexivity.
  - destruct (pair_eqb k q) eqn:Hkq; simpl.
    + apply pair_eqb_eq in Hkq; subst k.
      destruct (pair_eqb q p); reflexivity.
    + destruct (pair_eqb k p) eqn:Hkp; [|exact IH].
      apply pair_eqb_eq in Hkp; subst k.
      apply pair_eqb_neq in Hkq.
      destruct (pair_eqb q p) eqn:Hqp; [|reflexivity].
      apply pair_eqb_eq in Hqp; congruence.
Qed.

Lemma lookup_record_all p es m :
  lookup p (record_all es m) = lookup p m ++ occurrences_of p es.
Proof.
  revert m; induction es as [|[q o] es IH]; intros m; simpl.
  - rewrite app_nil_r; reflexivity.
  - unfold record_all in *; simpl. rewrite IH, lookup_append_occ.
    unfold occurrences_of; simpl.
    destruct (pair_eqb q p); simpl; [rewrite <- app_assoc|]; reflexivity.
Qed.

Lemma record_all_app es1 es2 m :
  record_all (es1 ++ es2) m = record_all es2 (record_all es1 m).
Proof. unfold record_all; apply fold_left_app. Qed.

Lemma occurrences_of_app p es1 es2 :
  occurrences_of p (es1 ++ es2) = occurrences_of p es1 ++ occurrences_of p es2.
Proof. unfold occurrences_of; rewrite filter_app, map_app; reflexivity. Qed.

Lemma in_keys_append_occ p q o m :
  In p (keys (append_occ q o m)) <-> p = q \/ In p (keys m).
Proof.
  induction m as [|[k occs] m IH]; simpl.
  - intuition.
  - destruct (pair_eqb k q) eqn:Hkq; simpl.
    + apply pair_eqb_eq in Hkq; subst k. intuition.
    + rewrite IH. intuition.
Qed.

Lemma NoDup_keys_append_occ q o m :
  NoDup (keys m) -> NoDup (keys (append_occ q o m)).
Proof.
  induction m as [|[k occs] m IH]; simpl; intros H.
  - constructor; [intros []|constructor].
  - inversion H as [|? ? Hk Hm]; subst.
    destruct (pair_eqb k q) eqn:Hkq; simpl.
    + constructor; assumption.
    + constructor; [|apply IH; assumption].
      rewrite in_keys_append_occ. intros [->|Hin]; [|contradiction].
      rewrite pair_eqb_refl in Hkq; discriminate.
Qed.

Lemma NoDup_keys_record_all es m :
  NoDup (keys m) -> NoDup (keys (record_all es m)).
Proof.
  revert m; induction es as [|e es IH]; intros m H; [exact H|].
  apply IH, NoDup_keys_append_occ, H.
Qed.

Lemma no_empty_list_append_occ q o m :
  no_empty_list m -> no_empty_list (append_occ q o m).
Proof.
  unfold no_empty_list.
  induction m as [|[k occs] m IH]; simpl; intros H.
  - constructor; [discriminate|constructor].
  - inversion H as [|? ? Hk Hm]; subst.
    destruct (pair_eqb k q).
    + constructor; [|assumption]. simpl. destruct occs; discriminate.
    + constructor; [assumption|apply IH; assumption].
Qed.

Lemma no_empty_list_record_all es m :
  no_empty_list m -> no_empty_list (record_all es m).
Proof.
  revert m; induction es as [|e es IH]; intros m H; [exact H|].
  apply IH, no_empty_list_append_occ, H.
Qed.

(** With distinct keys, an entry of the dictionary is what [lookup] finds. *)
Lemma lookup_In p occs m :
  NoDup (keys m) -> In (p, occs) m -> lookup p m = occs.
Proof.
  induction m as [|[k os] m IH]; simpl; intros Hnd Hin; [contradiction|].
  inversion Hnd as [|? ? Hk Hm]; subst.
  destruct Hin as [Heq|Hin].
  - inversion Heq; subst. rewrite pair_eqb_refl; reflexivity.
  - destruct (pair_eqb k p) eqn:Hkp; [|apply IH; assumption].
    apply pair_eqb_eq in Hkp; subst k.
    exfalso; apply Hk. unfold keys. change p with (fst (p, occs)).
    apply in_map; assumption.
Qed.

Lemma lookup_nonempty_In p m :
  lookup p m <> [] -> In (p, lookup p m) m.
Proof.
  induction m as [|[k os] m IH]; simpl; intros H; [congruence|].
  destruct (pair_eqb k p) eqn:Hkp.
  - apply pair_eqb_eq in Hkp; subst k. left; reflexivity.
  - right; apply IH, H.
Qed.

(** ** Phase 1 as a list of entries *)

Lemma enumerate_from_cons i row rs :
  enumerate_from i (row :: rs) = (i, row) :: enumerate_from (S i) rs.
Proof. reflexivity. Qed.

Lemma rows_entries_cons file_path cols i row rs :
  rows_entries file_path cols i (row :: rs) =
  row_entry file_path cols (i, row) ++ rows_entries file_path cols (S i) rs.
Proof. reflexivity. Qed.

Lemma row_entry_status file_path cols i row :
  row_entry file_path cols (i, row) =
  match row_status cols row with
  | ValidKey p => [(p, (file_path, i + 3))]
  | _ => []
  end.
Proof.
  unfold row_entry; cbn [fst snd].
  destruct (valid_key cols row) as [p|] eqn:Hv.
  - apply valid_key_status in Hv; rewrite Hv; reflexivity.
  - destruct (row_status cols row) as [|p| |e] eqn:Hst; try reflexivity.
    apply valid_key_status in Hst; congruence.
Qed.

Lemma reached_cons cols row rs :
  reached cols (row :: rs) =
  match row_status cols row with
  | FatalKey _ => []
  | _ => row :: reached cols rs
  end.
Proof.
  cbn [reached]; unfold is_fatal; destruct (row_status cols row); reflexivity.
Qed.

(** The row loop records the valid-key rows among the rows it reaches,
    prints diagnostics only, and ends with an exception exactly when a
    row is fatal. *)
Lemma iterrows_loop_entries file_path cols rs : forall i m,
  exists out exn,
    iterrows_loop file_path cols i rs m =
      (record_all (rows_entries file_path cols i (reached cols rs)) m, out, exn)
    /\ forallb is_diagnostic out = true
    /\ (exn = None <-> reached cols rs = rs)
    /\ (forall e, exn = Some e ->
          e = OverflowError /\ handler file_path e = ErrUnexpected file_path e).
Proof.
  induction rs as [|row rs IH]; intros i m.
  - exists [], None. repeat split; intros; try discriminate; reflexivity.
  - cbn [iterrows_loop].
    rewrite process_row_status, reached_cons.
    destruct (row_status cols row) as [|p| |e] eqn:Hst;
      try rewrite rows_entries_cons, row_entry_status, Hst.
    + destruct (IH (S i) m) as (out & exn & -> & Hd & Hr & He).
      exists out, exn. repeat split; try assumption; try (apply He; assumption).
      * intros H; f_equal; apply Hr, H.
      * intros H; apply Hr; congruence.
    + destruct (IH (S i) (append_occ p (file_path, i + 3) m))
        as (out & exn & -> & Hd & Hr & He).
      exists out, exn. repeat split; try assumption; try (apply He; assumption).
      * intros H; f_equal; apply Hr, H.
      * intros H; apply Hr; congruence.
    + destruct (IH (S i) m) as (out & exn & -> & Hd & Hr & He).
      exists (WarnBadRow (i + 3) file_path :: out), exn.
      repeat split; try assumption; try (apply He; assumption).
      * intros H; f_equal; apply Hr, H.
      * intros H; apply Hr; congruence.
    + exists [], (Some e).
      repeat split; try discriminate; try reflexivity.
      * injection H as <-. eapply row_status_fatal; eauto.
      * injection H as <-. apply row_status_fatal in Hst; subst; reflexivity.
Qed.

Lemma process_file_entries fs file_path m :
  exists out,
    process_file fs file_path m = (record_all (file_entries fs file_path) m, out)
    /\ forallb is_diagnostic out = true.
Proof.
  unfold process_file, file_entries, frame_of.
  destruct (fs file_path) as [content|]; [|eexists; split; reflexivity].
  destruct (read_csv content) as [df|e].
  - destruct (has_required_columns (columns df)); cbn [negb].
    + destruct (iterrows_loop_entries file_path (columns df) (rows df) 0 m)
        as (out & exn & -> & Hd & _ & He).
      destruct exn as [e|]; [|exists out; split; [reflexivity|exact Hd]].
      exists (out ++ [handler file_path e]); split; [reflexivity|].
      rewrite forallb_app, Hd. destruct (He e eq_refl) as [_ ->]. reflexivity.
    + eexists; split; reflexivity.
  - exists [handler file_path e]; split; [reflexivity|].
    destruct e; reflexivity.
Qed.

Lemma process_files_entries fs file_paths : forall m,
  exists out,
    process_files fs file_paths m = (record_all (entries fs file_paths) m, out)
    /\ forallb is_diagnostic out = true.
Proof.
  induction file_paths as [|f rest IH]; intros m.
  - exists []; split; reflexivity.
  - cbn [process_files entries flat_map].
    destruct (process_file_entries fs f m) as (out & -> & Hd).
    destruct (IH (record_all (file_entries fs f) m)) as (out' & -> & Hd').
    exists (out ++ out'); split.
    + rewrite record_all_app; reflexivity.
    + rewrite forallb_app, Hd, Hd'; reflexivity.
Qed.

Lemma final_index_entries fs file_paths :
  final_index fs file_paths = record_all (entries fs file_paths) [].
Proof.
  unfold final_index.
  destruct (process_files_entries fs file_paths []) as (out & -> & _).
  reflexivity.
Qed.

Lemma lookup_final_index fs file_paths p :
  lookup p (final_index fs file_paths) = occurrences_of p (entries fs file_paths).
Proof. rewrite final_index_entries, lookup_record_all; reflexivity. Qed.

Lemma NoDup_keys_final_index fs file_paths :
  NoDup (keys (final_index fs file_paths)).
Proof.
  rewrite final_index_entries; apply NoDup_keys_record_all; constructor.
Qed.

Lemma entries_app fs l1 l2 :
  entries fs (l1 ++ l2) = entries fs l1 ++ entries fs l2.
Proof. unfold entries; apply flat_map_app. Qed.

(** ** Phase 2 as a list of blocks *)

Lemma report_loop_blocks m : forall found,
  report_loop m found = (blocks_of m, found || existsb is_duplicate m).
Proof.
  induction m as [|[p occs] m IH]; intros found; cbn [report_loop].
  - rewrite orb_false_r; reflexivity.
  - unfold blocks_of; cbn [filter existsb].
    change (1 <? List.length occs)%nat with (is_duplicate (p, occs)).
    destruct (is_duplicate (p, occs)); rewrite IH.
    + cbn [flat_map fst snd orb]. destruct found; reflexivity.
    + reflexivity.
Qed.

Lemma blocks_of_app m1 m2 : blocks_of (m1 ++ m2) = blocks_of m1 ++ blocks_of m2.
Proof. unfold blocks_of; rewrite filter_app, flat_map_app; reflexivity. Qed.

Lemma blocks_of_cons p occs m :
  blocks_of ((p, occs) :: m) =
  if (1 <? List.length occs)%nat then report_block p occs ++ blocks_of m
  else blocks_of m.
Proof.
  unfold blocks_of; cbn [filter]. unfold is_duplicate at 1; cbn [snd].
  destruct (1 <? List.length occs)%nat; reflexivity.
Qed.

(** The shape of the whole output. *)
Lemma check_output fs file_paths :
  exists diagnostics,
    forallb is_diagnostic diagnostics = true
    /\ check_duplicate_channel_cue fs file_paths =
       [Banner (List.length file_paths); Rule; Note; Rule]
         ++ diagnostics
         ++ [Rule; SummaryHeader]
         ++ blocks_of (final_index fs file_paths)
         ++ [Rule; closing (existsb is_duplicate (final_index fs file_paths))].
Proof.
  unfold check_duplicate_channel_cue, final_index.
  destruct (process_files_entries fs file_paths []) as (out & -> & Hd).
  exists out; split; [exact Hd|].
  cbn [fst]. rewrite report_loop_blocks. reflexivity.
Qed.

Lemma in_report_block msg p occs :
  In msg (report_block p occs) <->
  msg = DupFound (fst p) (snd p) \/ msg = TotalOccurrences (List.length occs)
  \/ msg = LocationsHeader
  \/ exists f l, In (f, l) occs /\ msg = Location f (l + 1).
Proof.
  destruct p as [c q]; unfold report_block; cbn [In fst snd].
  rewrite in_map_iff. split.
  - intros [<-|[<-|[<-|([f l] & <- & Hin)]]]; auto.
    right; right; right; exists f, l; auto.
  - intros [->|[->|[->|(f & l & Hin & ->)]]]; auto.
    right; right; right; exists (f, l); auto.
Qed.

Lemma in_blocks_of msg m :
  In msg (blocks_of m) <->
  exists p occs, In (p, occs) m /\ 2 <= List.length occs /\ In msg (report_block p occs).
Proof.
  unfold blocks_of. rewrite in_flat_map. split.
  - intros ([p occs] & Hin & Hmsg). apply filter_In in Hin as [Hin Hd].
    unfold is_duplicate in Hd; cbn [snd] in Hd. apply Nat.ltb_lt in Hd.
    exists p, occs; auto.
  - intros (p & occs & Hin & Hlen & Hmsg). exists (p, occs); split; [|exact Hmsg].
    apply filter_In; split; [exact Hin|].
    unfold is_duplicate; cbn [snd]. apply Nat.ltb_lt; lia.
Qed.

Lemma diagnostic_not_in out msg :
  forallb is_diagnostic out = true -> is_diagnostic msg = false -> ~ In msg out.
Proof.
  intros Hd Hm Hin. rewrite forallb_forall in Hd. apply Hd in Hin. congruence.
Qed.

(** Membership in the output, for messages that are no diagnostics. *)
Lemma in_check_output fs file_paths msg :
  is_diagnostic msg = false ->
  (In msg (check_duplicate_channel_cue fs file_paths) <->
   In msg [Banner (List.length file_paths); Rule; Note; SummaryHeader;
           closing (existsb is_duplicate (final_index fs file_paths))]
   \/ In msg (blocks_of (final_index fs file_paths))).
Proof.
  intros Hm. destruct (check_output fs file_paths) as (diag & Hd & ->).
  pose proof (diagnostic_not_in diag msg Hd Hm) as Hn.
  rewrite !in_app_iff. cbn [In]. tauto.
Qed.

Lemma in_check_DupFound fs file_paths c q :
  In (DupFound c q) (check_duplicate_channel_cue fs file_paths) <->
  2 <= List.length (lookup (c, q) (final_index fs file_paths)).
Proof.
  rewrite in_check_output by reflexivity.
  rewrite in_blocks_of. split.
  - intros [H|(p & occs & Hin & Hlen & Hmsg)].
    + cbn [In] in H. unfold closing in H.
      destruct (negb _); intuition discriminate.
    + apply in_report_block in Hmsg.
      destruct Hmsg as [Heq|[Heq|[Heq|(f & l & _ & Heq)]]]; try discriminate.
      injection Heq as -> ->. rewrite <- surjective_pairing.
      rewrite (lookup_In p occs); auto using NoDup_keys_final_index.
  - intros Hlen. right.
    exists (c, q), (lookup (c, q) (final_index fs file_paths)).
    split; [|split; [exact Hlen|apply in_report_block; left; reflexivity]].
    apply lookup_nonempty_In.
    destruct (lookup (c, q) (final_index fs file_paths)); [simpl in Hlen; lia|discriminate].
Qed.

Lemma hd_error_blocks_of m :
  hd_error (blocks_of m) = None
  \/ exists c q, hd_error (blocks_of m) = Some (DupFound c q).
Proof.
  induction m as [|[[c q] occs] m IH]; [left; reflexivity|].
  rewrite blocks_of_cons. destruct (1 <? List.length occs)%nat; [|exact IH].
  right; exists c, q; reflexivity.
Qed.

Lemma DupFound_in_blocks_of c q m :
  In (DupFound c q) (blocks_of m) -> In (c, q) (keys m).
Proof.
  rewrite in_blocks_of. intros (p & occs & Hin & _ & Hmsg).
  apply in_report_block in Hmsg.
  destruct Hmsg as [Heq|[Heq|[Heq|(f & l & _ & Heq)]]]; try discriminate.
  injection Heq as -> ->. rewrite <- surjective_pairing.
  unfold keys. change p with (fst (p, occs)). apply in_map; exact Hin.
Qed.

(** A duplicate pair of the dictionary has exactly one block in the
    output, with all its occurrences. *)
Lemma prints_block_check fs file_paths p :
  2 <= List.length (lookup p (final_index fs file_paths)) ->
  prints_block (check_duplicate_channel_cue fs file_paths) p
    (lookup p (final_index fs file_paths)).
Proof.
  intros Hlen.
  destruct (check_output fs file_paths) as (diag & Hd & ->).
  pose proof (NoDup_keys_final_index fs file_paths) as Hnd.
  set (m := final_index fs file_paths) in *.
  set (occs := lookup p m) in *.
  assert (Hin : In (p, occs) m).
  { apply lookup_nonempty_In. fold occs. destruct occs; [simpl in Hlen; lia|discriminate]. }
  apply in_split in Hin as (m1 & m2 & Hm).
  rewrite Hm in Hnd. unfold keys in Hnd. rewrite map_app in Hnd; cbn [map fst] in Hnd.
  apply NoDup_remove_2 in Hnd.
  rewrite Hm, blocks_of_app, blocks_of_cons.
  replace (1 <? List.length occs)%nat with true by (symmetry; apply Nat.ltb_lt; lia).
  exists ([Banner (List.length file_paths); Rule; Note; Rule] ++ diag
            ++ [Rule; SummaryHeader] ++ blocks_of m1),
    (blocks_of m2 ++ [Rule; closing (existsb is_duplicate (m1 ++ (p, occs) :: m2))]).
  repeat split.
  - rewrite <- !app_assoc. reflexivity.
  - rewrite !in_app_iff. intros [H|[H|[H|H]]].
    + cbn [In] in H; intuition discriminate.
    + revert H; apply diagnostic_not_in; [exact Hd|reflexivity].
    + cbn [In] in H; intuition discriminate.
    + apply Hnd. rewrite in_app_iff; left.
      rewrite (surjective_pairing p). apply DupFound_in_blocks_of, H.
  - rewrite in_app_iff. intros [H|H].
    + apply Hnd. rewrite in_app_iff; right.
      rewrite (surjective_pairing p). apply DupFound_in_blocks_of, H.
    + cbn [In] in H. unfold closing in H. destruct (negb _); intuition discriminate.
  - intros f l. destruct (hd_error_blocks_of m2) as [Hnone|(c & q & Hsome)].
    + destruct (blocks_of m2); [discriminate|discriminate].
    + destruct (blocks_of m2); [discriminate|].
      cbn [hd_error app] in *. congruence.
Qed.

(** ** Rows of the index are rows of the files *)

Lemma in_rows_entries file_path cols p f ln rs : forall i,
  In (p, (f, ln)) (rows_entries file_path cols i rs) ->
  f = file_path /\ exists idx row,
    ln = i + idx + 3 /\ nth_error rs idx = Some row /\ valid_key cols row = Some p.
Proof.
  induction rs as [|row rs IH]; intros i; [intros []|].
  rewrite rows_entries_cons, in_app_iff. intros [H|H].
  - unfold row_entry in H; cbn [fst snd] in H.
    destruct (valid_key cols row) as [p'|] eqn:Hv; [|destruct H].
    destruct H as [H|[]]. injection H as Hp Hf Hln. subst p' f ln.
    split; [reflexivity|]. exists 0, row. repeat split; [lia|exact Hv].
  - apply IH in H as (-> & idx & row' & -> & Hnth & Hv).
    split; [reflexivity|]. exists (S idx), row'. repeat split; [lia|exact Hnth|exact Hv].
Qed.

Lemma nth_error_reached cols rs idx row :
  nth_error (reached cols rs) idx = Some row -> nth_error rs idx = Some row.
Proof.
  revert idx; induction rs as [|r rs IH]; intros idx; cbn [reached].
  - destruct idx; discriminate.
  - destruct (is_fatal cols r); [destruct idx; discriminate|].
    destruct idx; [exact (fun H => H)|apply IH].
Qed.

Lemma frame_of_Some fs file_path df :
  frame_of fs file_path = Some df ->
  exists l1 l2 hd data,
    fs file_path = Some (Text (l1 :: l2 :: hd :: data))
    /\ df = mkFrame (names hd) (map cells data)
    /\ has_required_columns (names hd) = true.
Proof.
  unfold frame_of. destruct (fs file_path) as [content|]; [|discriminate].
  destruct content as [[|l1 [|l2 [|hd data]]]| |cause]; try discriminate.
  cbn [read_csv columns].
  destruct (has_required_columns (names hd)) eqn:Hreq; [|discriminate].
  intros [= <-]. exists l1, l2, hd, data. auto.
Qed.

(** Every recorded occurrence is a data row of a file that was given: it
    is stored as [idx + 3] and sits on physical line [idx + 4]. *)
Lemma entries_real_rows fs file_paths p f ln :
  In (p, (f, ln)) (entries fs file_paths) ->
  In f file_paths /\
  exists idx lines hd line,
    fs f = Some (Text lines)
    /\ physical_line lines 3 = Some hd
    /\ ln = idx + 3
    /\ physical_line lines (idx + 4) = Some line
    /\ nth_error (map cells (skipn 3 lines)) idx = Some (cells line)
    /\ valid_key (names hd) (cells line) = Some p.
Proof.
  unfold entries. rewrite in_flat_map. intros (path & Hpath & Hin).
  unfold file_entries in Hin.
  destruct (frame_of fs path) as [df|] eqn:Hf; [|destruct Hin].
  apply frame_of_Some in Hf as (l1 & l2 & hd & data & Hfs & -> & Hreq).
  cbn [columns rows] in Hin.
  apply in_rows_entries in Hin as (-> & idx & row & -> & Hnth & Hv).
  apply nth_error_reached in Hnth.
  split; [exact Hpath|].
  destruct (nth_error data idx) as [line|] eqn:Hline.
  - rewrite nth_error_map, Hline in Hnth. cbn in Hnth. injection Hnth as <-.
    exists idx, (l1 :: l2 :: hd :: data), hd, line.
    repeat split; try assumption; try reflexivity.
    + replace (idx + 4) with (S (S (S (S idx)))) by lia. exact Hline.
    + cbn [skipn]. rewrite nth_error_map, Hline. reflexivity.
  - rewrite nth_error_map, Hline in Hnth. discriminate.
Qed.

Lemma in_occurrences_of p o es :
  In o (occurrences_of p es) <-> In (p, o) es.
Proof.
  unfold occurrences_of. rewrite in_map_iff. split.
  - intros ([p' o'] & <- & Hin). apply filter_In in Hin as [Hin Heq].
    cbn [fst snd] in *. apply pair_eqb_eq in Heq; subst p'. exact Hin.
  - intros Hin. exists (p, o); split; [reflexivity|].
    apply filter_In; split; [exact Hin|apply pair_eqb_refl].
Qed.

Lemma Location_printed fs file_paths p f ln :
  In (f, ln) (lookup p (final_index fs file_paths)) ->
  2 <= List.length (lookup p (final_index fs file_paths)) ->
  In (Location f (ln + 1)) (check_duplicate_channel_cue fs file_paths).
Proof.
  intros Hin Hlen. apply in_check_output; [reflexivity|]. right.
  apply in_blocks_of. exists p, (lookup p (final_index fs file_paths)).
  split; [|split; [exact Hlen|]].
  - apply lookup_nonempty_In. intros Hnil; rewrite Hnil in Hin; destruct Hin.
  - apply in_report_block. right; right; right. exists f, ln; auto.
Qed.

Lemma existsb_is_duplicate m :
  NoDup (keys m) ->
  (existsb is_duplicate m = true <-> exists p, 2 <= List.length (lookup p m)).
Proof.
  intros Hnd. rewrite existsb_exists. split.
  - intros ([p occs] & Hin & Hd). exists p.
    rewrite (lookup_In p occs m Hnd Hin).
    unfold is_duplicate in Hd; cbn [snd] in Hd. apply Nat.ltb_lt in Hd. lia.
  - intros (p & Hlen). exists (p, lookup p m). split.
    + apply lookup_nonempty_In. destruct (lookup p m); [simpl in Hlen; lia|discriminate].
    + unfold is_duplicate; cbn [snd]. apply Nat.ltb_lt. lia.
Qed.

(** * The properties *)

(** ** C1: which pairs are reported, and with what *)

(** C1 (defect of the code): the report is to list every pair that
    occurs twice or more in rows with valid integer keys.  In the sample
    file B the pair (1,1) has two such rows, on lines 4 and 6, but the
    row between them has an infinite channel: [int] raises
    [OverflowError] there, which [except ValueError] does not catch, the
    rest of the file is dropped and (1,1) is not reported. *)
Lemma valid_rows_after_fatal_row_not_reported :
  List.length (occurrences_of (1%Z, 1%Z) (valid_rows Samples.fs ["B.csv"])) = 2
  /\ ~ In (DupFound 1 1) (check_duplicate_channel_cue Samples.fs ["B.csv"]).
Proof.
  split; [reflexivity|]. vm_compute. intuition discriminate.
Qed.

(** ** C2: stored and displayed line numbers *)

(** C2: an occurrence in the dictionary comes from a data row with some
    0-based index idx of its file; the loop stores idx + 3 for it, the
    report shows the stored number plus one, idx + 4, and that is the
    physical line of the row (line 4 for idx = 0). *)
Theorem stored_line_plus_one_is_physical_line fs file_paths p f ln :
  In (f, ln) (lookup p (final_index fs file_paths)) ->
  exists idx lines line df,
    fs f = Some (Text lines)
    /\ read_csv (Text lines) = Ok df
    /\ nth_error (rows df) idx = Some (cells line)
    /\ valid_key (columns df) (cells line) = Some p
    /\ (forall m, process_row f (columns df) idx (cells line) m
                  = Ok (append_occ p (f, idx + 3) m, []))
    /\ ln = idx + 3
    /\ show_location (f, ln) = Location f (idx + 4)
    /\ physical_line lines (idx + 4) = Some line
    /\ (2 <= List.length (lookup p (final_index fs file_paths)) ->
        In (Location f (idx + 4)) (check_duplicate_channel_cue fs file_paths)).
Proof.
  intros Hin. pose proof Hin as Hin'.
  rewrite lookup_final_index in Hin'. apply in_occurrences_of in Hin'.
  apply entries_real_rows in Hin'
    as (_ & idx & lines & hd & line & Hfs & Hhd & -> & Hline & Hnth & Hv).
  destruct lines as [|l1 [|l2 [|hd' data]]]; try discriminate.
  cbn in Hhd. injection Hhd as ->. cbn [skipn] in Hnth.
  exists idx, (l1 :: l2 :: hd :: data), line, (mkFrame (names hd) (map cells data)).
  cbn [columns rows]. repeat split; try assumption.
  - intros m. rewrite process_row_status.
    apply valid_key_status in Hv. rewrite Hv. reflexivity.
  - cbn. f_equal. lia.
  - intros Hlen. replace (idx + 4) with (idx + 3 + 1) by lia.
    eapply Location_printed; eauto.
Qed.

Lemma stored_line_plus_one_is_physical_line_witness :
  exists idx lines line df,
    Samples.fs "A.csv" = Some (Text lines)
    /\ read_csv (Text lines) = Ok df
    /\ nth_error (rows df) idx = Some (cells line)
    /\ valid_key (columns df) (cells line) = Some (1%Z, 1%Z)
    /\ (forall m, process_row "A.csv" (columns df) idx (cells line) m
                  = Ok (append_occ (1%Z, 1%Z) ("A.csv", idx + 3) m, []))
    /\ 5 = idx + 3
    /\ show_location ("A.csv", 5) = Location "A.csv" (idx + 4)
    /\ physical_line lines (idx + 4) = Some line
    /\ (2 <= List.length (lookup (1%Z, 1%Z) (final_index Samples.fs ["A.csv"])) ->
        In (Location "A.csv" (idx + 4))
           (check_duplicate_channel_cue Samples.fs ["A.csv"])).
Proof.
  apply (stored_line_plus_one_is_physical_line Samples.fs ["A.csv"] (1%Z, 1%Z) "A.csv" 5).
  vm_compute. right; left; reflexivity.
Defined.

(** ** C3: the scenario with rows (1,1) on lines 4 and 6 *)

(** C3, as stated, fails: the sample file A has (1,1) on its physical
    lines 4 and 6, and the report shows lines 4 and 6, not 5 and 7. *)
Lemma scenario_lines_4_and_6_not_shown_as_5_and_7 :
  physical_line Samples.file_A 3 = Some Samples.header
  /\ valid_key (names Samples.header) (cells (Samples.data Samples.one Samples.one))
     = Some (1%Z, 1%Z)
  /\ physical_line Samples.file_A 4 = Some (Samples.data Samples.one Samples.one)
  /\ physical_line Samples.file_A 6 = Some (Samples.data Samples.one Samples.one)
  /\ ~ prints_block (check_duplicate_channel_cue Samples.fs ["A.csv"]) (1%Z, 1%Z)
         [("A.csv", 4); ("A.csv", 6)]
  /\ ~ In (Location "A.csv" 5) (check_duplicate_channel_cue Samples.fs ["A.csv"])
  /\ ~ In (Location "A.csv" 7) (check_duplicate_channel_cue Samples.fs ["A.csv"]).
Proof.
  assert (H5 : ~ In (Location "A.csv" 5)
                 (check_duplicate_channel_cue Samples.fs ["A.csv"])).
  { vm_compute. intuition discriminate. }
  repeat split; try reflexivity; try exact H5.
  - intros (before & after & Heq & _). apply H5. rewrite Heq.
    rewrite !in_app_iff. right; left.
    apply in_report_block. right; right; right. exists "A.csv", 4. split; [left|]; reflexivity.
  - vm_compute. intuition discriminate.
Qed.

(** C3 (amended): when a file given alone has rows with channel 1 and
    cue 1 on its physical lines 4 and 6, and line 5 is another row that
    does not stop the loop, the report shows the pair (1,1) with 2
    occurrences whose displayed line numbers are 4 and 6. *)
Theorem scenario_lines_4_and_6 (fs : FS) file_path l1 l2 hd r4 r5 r6 :
  fs file_path = Some (Text [l1; l2; hd; r4; r5; r6]) ->
  has_required_columns (names hd) = true ->
  valid_key (names hd) (cells r4) = Some (1%Z, 1%Z) ->
  valid_key (names hd) (cells r6) = Some (1%Z, 1%Z) ->
  is_fatal (names hd) (cells r5) = false ->
  valid_key (names hd) (cells r5) <> Some (1%Z, 1%Z) ->
  exists before after,
    check_duplicate_channel_cue fs [file_path] =
      before
      ++ [DupFound 1 1; TotalOccurrences 2; LocationsHeader;
          Location file_path 4; Location file_path 6]
      ++ after
    /\ ~ In (DupFound 1 1) before
    /\ ~ In (DupFound 1 1) after
    /\ (forall f l, hd_error after <> Some (Location f l)).
Proof.
  intros Hfs Hreq H4 H6 H5 H5'.
  assert (Hocc : lookup (1%Z, 1%Z) (final_index fs [file_path])
                 = [(file_path, 3); (file_path, 5)]).
  { rewrite lookup_final_index. unfold entries; cbn [flat_map].
    rewrite app_nil_r. unfold file_entries, frame_of.
    rewrite Hfs. cbn [read_csv columns rows map]. rewrite Hreq.
    cbn [columns rows].
    pose proof H4 as S4. pose proof H6 as S6.
    apply valid_key_status in S4, S6.
    cbn [reached]. unfold is_fatal at 1. rewrite S4. rewrite H5.
    unfold is_fatal. rewrite S6.
    rewrite !rows_entries_cons. unfold row_entry; cbn [fst snd].
    rewrite H4, H6. unfold rows_entries, enumerate_from; cbn [List.length seq combine flat_map].
    rewrite !occurrences_of_app. unfold occurrences_of at 1 3 4; cbn.
    destruct (valid_key (names hd) (cells r5)) as [p5|] eqn:Hv5; [|reflexivity].
    unfold occurrences_of; cbn [filter fst map].
    destruct (pair_eqb p5 (1%Z, 1%Z)) eqn:Hp; [|reflexivity].
    apply pair_eqb_eq in Hp; subst p5. exfalso; apply H5'; reflexivity. }
  pose proof (prints_block_check fs [file_path] (1%Z, 1%Z)) as Hb.
  rewrite Hocc in Hb. apply Hb. simpl. lia.
Qed.

Lemma scenario_lines_4_and_6_witness :
  exists before after,
    check_duplicate_channel_cue Samples.fs ["A.csv"] =
      before
      ++ [DupFound 1 1; TotalOccurrences 2; LocationsHeader;
          Location "A.csv" 4; Location "A.csv" 6]
      ++ after
    /\ ~ In (DupFound 1 1) before
    /\ ~ In (DupFound 1 1) after
    /\ (forall f l, hd_error after <> Some (Location f l)).
Proof.
  apply (scenario_lines_4_and_6 Samples.fs "A.csv" Samples.preamble Samples.preamble
           Samples.header (Samples.data Samples.one Samples.one)
           (Samples.data Samples.two Samples.one)
           (Samples.data Samples.one Samples.one));
    try reflexivity.
  vm_compute. discriminate.
Defined.

(** ** C4: the closing message *)

(** C4: the output ends with exactly one closing message, and it holds no
    other: the success message when no pair has two occurrences, and then
    no DUPLICATE PAIR FOUND line is in the output; the completion message
    when some pair has, and then its DUPLICATE PAIR FOUND line is there. *)
Theorem exactly_one_closing_message fs file_paths :
  let out := check_duplicate_channel_cue fs file_paths in
  let m := final_index fs file_paths in
  exists body final,
    out = body ++ [final]
    /\ ~ In Success body /\ ~ In Completed body
    /\ ((final = Success
         /\ (forall p, List.length (lookup p m) < 2)
         /\ (forall c q, ~ In (DupFound c q) out))
        \/ (final = Completed
            /\ exists c q, 2 <= List.length (lookup (c, q) m)
                           /\ In (DupFound c q) out)).
Proof.
  cbv zeta.
  pose proof (existsb_is_duplicate _ (NoDup_keys_final_index fs file_paths)) as Hex.
  assert (Hdup : forall c q,
             In (DupFound c q) (check_duplicate_channel_cue fs file_paths) <->
             2 <= List.length (lookup (c, q) (final_index fs file_paths)))
    by (intros; apply in_check_DupFound).
  destruct (check_output fs file_paths) as (diag & Hd & Hout).
  rewrite Hout in *.
  set (m := final_index fs file_paths) in *.
  assert (Hblk : forall msg, In msg (blocks_of m) ->
                   msg <> Success /\ msg <> Completed).
  { intros msg Hin. apply in_blocks_of in Hin as (p & occs & _ & _ & Hin).
    apply in_report_block in Hin.
    destruct Hin as [->|[->|[->|(f & l & _ & ->)]]]; split; discriminate. }
  exists ([Banner (List.length file_paths); Rule; Note; Rule] ++ diag
            ++ [Rule; SummaryHeader] ++ blocks_of m ++ [Rule]),
    (closing (existsb is_duplicate m)).
  split; [rewrite <- !app_assoc; reflexivity|].
  split; [|split].
  - rewrite !in_app_iff. intros [H|[H|[H|[H|H]]]];
      try (cbn [In] in H; intuition discriminate).
    + revert H; apply diagnostic_not_in; [exact Hd|reflexivity].
    + apply Hblk in H. tauto.
  - rewrite !in_app_iff. intros [H|[H|[H|[H|H]]]];
      try (cbn [In] in H; intuition discriminate).
    + revert H; apply diagnostic_not_in; [exact Hd|reflexivity].
    + apply Hblk in H. tauto.
  - destruct (existsb is_duplicate m) eqn:He; cbn [closing negb].
    + right. split; [reflexivity|].
      destruct (proj1 Hex eq_refl) as ([c q] & Hlen).
      exists c, q. split; [exact Hlen|apply Hdup, Hlen].
    + left. split; [reflexivity|]. split.
      * intros p. destruct (le_lt_dec 2 (List.length (lookup p m))) as [Hle|Hlt]; [|exact Hlt].
        assert (true = false) by (rewrite <- (proj2 Hex); [reflexivity|eauto]).
        discriminate.
      * intros c q Hin. apply Hdup in Hin.
        assert (true = false) by (rewrite <- (proj2 Hex); [reflexivity|eauto]).
        discriminate.
Qed.

(** ** C5: rows without a valid key *)

(** C5 (defect of the code): a row with both keys present whose
    conversion fails is to get a warning with the file and its line, and
    only that row is to be skipped.  On line 5 of the sample file B the
    channel is an infinite float; the exception is [OverflowError], which
    the inner handler does not catch, so no warning for the row is
    printed: the loop over the file ends and the handler of the file
    reports the error instead. *)
Lemma infinite_key_gets_no_row_warning :
  let cols := names Samples.header in
  let row := cells (Samples.data Samples.inf Samples.one) in
  physical_line Samples.file_B 5 = Some (Samples.data Samples.inf Samples.one)
  /\ missing_key cols row = false
  /\ py_int (row_get cols row "#Channel") = Raise OverflowError
  /\ (forall m, process_row "B.csv" cols 1 row m = Raise OverflowError)
  /\ (forall n, ~ In (WarnBadRow n "B.csv")
                  (check_duplicate_channel_cue Samples.fs ["B.csv"])).
Proof.
  cbv zeta. repeat split.
  intros n. vm_compute. intuition discriminate.
Qed.

(** ** C6: failures of a file, and the command line *)

Lemma process_files_app fs l1 l2 m :
  process_files fs (l1 ++ l2) m =
  let '(m1, o1) := process_files fs l1 m in
  let '(m2, o2) := process_files fs l2 m1 in
  (m2, o1 ++ o2).
Proof.
  revert m; induction l1 as [|f l1 IH]; intros m; cbn [process_files app].
  - destruct (process_files fs l2 m); reflexivity.
  - destruct (process_file fs f m) as [m0 o0]. rewrite IH.
    destruct (process_files fs l1 m0) as [m1 o1].
    destruct (process_files fs l2 m1) as [m2 o2].
    rewrite app_assoc; reflexivity.
Qed.

Lemma read_failure_file_entries fs f d :
  read_failure fs f = Some d -> file_entries fs f = [].
Proof.
  unfold read_failure, file_entries, frame_of.
  destruct (fs f) as [content|]; [|reflexivity].
  destruct (read_csv content); [discriminate|reflexivity].
Qed.

Lemma entries_skip fs f before after :
  file_entries fs f = [] ->
  entries fs (before ++ f :: after) = entries fs (before ++ after).
Proof.
  intros H. rewrite !entries_app. unfold entries at 2; cbn [flat_map].
  rewrite H. reflexivity.
Qed.

(** C6: a file that is missing, empty, unparsable or unreadable gets one
    diagnostic that names it and leaves the dictionary as it was; the
    files before and after it are processed as if it had not been given,
    and the run ends with its closing message.  The only run that does
    not get that far is the one without any file argument, which ends in
    the usage error before anything is processed. *)
Theorem file_failure_skips_only_that_file fs :
  main fs [] = UsageError
  /\ (forall files, files <> [] ->
        exists body final,
          main fs files = Finished (body ++ [final])
          /\ (final = Success \/ final = Completed))
  /\ (forall f d, read_failure fs f = Some d ->
        (d = ErrNotFound f \/ d = WarnEmpty f \/ d = ErrParse f
         \/ exists e, d = ErrUnexpected f e)
        /\ (forall m, process_file fs f m = (m, [d]))
        /\ forall before after,
             (forall m,
                process_files fs (before ++ f :: after) m =
                let '(m1, o1) := process_files fs before m in
                let '(m2, o2) := process_files fs after m1 in
                (m2, o1 ++ [d] ++ o2))
             /\ final_index fs (before ++ f :: after) = final_index fs (before ++ after)
             /\ In d (check_duplicate_channel_cue fs (before ++ f :: after))).
Proof.
  split; [reflexivity|]. split.
  - intros files Hne. destruct files as [|f files]; [congruence|].
    cbn [main]. destruct (check_output fs (f :: files)) as (diag & _ & ->).
    exists ([Banner (List.length (f :: files)); Rule; Note; Rule] ++ diag
              ++ [Rule; SummaryHeader] ++ blocks_of (final_index fs (f :: files))
              ++ [Rule]),
      (closing (existsb is_duplicate (final_index fs (f :: files)))).
    split.
    + rewrite <- !app_assoc. reflexivity.
    + unfold closing. destruct (negb _); auto.
  - intros f d Hfail.
    assert (Hpf : forall m, process_file fs f m = (m, [d])).
    { intros m. unfold process_file. unfold read_failure in Hfail.
      destruct (fs f) as [content|]; [|congruence].
      destruct (read_csv content) as [df|e]; [discriminate|congruence]. }
    assert (Hpfs : forall before after m,
               process_files fs (before ++ f :: after) m =
               let '(m1, o1) := process_files fs before m in
               let '(m2, o2) := process_files fs after m1 in
               (m2, o1 ++ [d] ++ o2)).
    { intros before after m. rewrite process_files_app.
      destruct (process_files fs before m) as [m1 o1].
      cbn [process_files]. rewrite Hpf.
      destruct (process_files fs after m1) as [m2 o2]. reflexivity. }
    split; [|split; [exact Hpf|]].
    + unfold read_failure in Hfail.
      destruct (fs f) as [content|]; [|injection Hfail as <-; auto].
      destruct (read_csv content) as [df|e]; [discriminate|].
      injection Hfail as <-. destruct e; cbn [handler]; eauto 6.
    + intros before after. split; [apply Hpfs|]. split.
      * rewrite !final_index_entries.
        rewrite (entries_skip fs f before after); [reflexivity|].
        eapply read_failure_file_entries; eauto.
      * unfold check_duplicate_channel_cue. rewrite Hpfs.
        destruct (process_files fs before []) as [m1 o1].
        destruct (process_files fs after m1) as [m2 o2].
        destruct (report_loop m2 false) as [blocks found].
        rewrite !in_app_iff. right; left. right; left. left; reflexivity.
Qed.

Lemma file_failure_skips_only_that_file_witness :
  (exists body final,
     main Samples.fs ["nope.csv"; "A.csv"] = Finished (body ++ [final])
     /\ (final = Success \/ final = Completed))
  /\ final_index Samples.fs (["A.csv"] ++ "locked.csv" :: ["E.csv"])
     = final_index Samples.fs (["A.csv"] ++ ["E.csv"])
  /\ In (ErrUnexpected "locked.csv" (OtherError "Permission denied"))
       (check_duplicate_channel_cue Samples.fs (["A.csv"] ++ "locked.csv" :: ["E.csv"])).
Proof.
  split.
  - apply (proj1 (proj2 (file_failure_skips_only_that_file Samples.fs))).
    discriminate.
  - apply (proj2 (proj2 (proj2 (proj2 (file_failure_skips_only_that_file Samples.fs))
             "locked.csv" (ErrUnexpected "locked.csv" (OtherError "Permission denied"))
             eq_refl)) ["A.csv"] ["E.csv"]).
Defined.

(** ** C7: a header without a required column *)

Lemma existsb_eqb_In (col : string) cols :
  existsb (String.eqb col) cols = true <-> In col cols.
Proof.
  rewrite existsb_exists. split.
  - intros (x & Hin & Heq). apply String.eqb_eq in Heq; subst; exact Hin.
  - intros Hin. exists col; split; [exact Hin|apply String.eqb_refl].
Qed.

Lemma has_required_columns_In cols :
  has_required_columns cols = true <-> In "#Channel" cols /\ In "#Cue" cols.
Proof.
  unfold has_required_columns, required_columns; cbn [forallb].
  rewrite andb_true_r, andb_true_iff, !existsb_eqb_In. reflexivity.
Qed.

Lemma file_entries_same_file fs path p f ln :
  In (p, (f, ln)) (file_entries fs path) -> f = path.
Proof.
  unfold file_entries. destruct (frame_of fs path) as [df|]; [|intros []].
  intros H. apply in_rows_entries in H. tauto.
Qed.

(** No occurrence in the dictionary names a file without entries. *)
Lemma no_entries_no_occurrence fs path :
  file_entries fs path = [] ->
  forall file_paths p ln, ~ In (path, ln) (lookup p (final_index fs file_paths)).
Proof.
  intros Hnil file_paths p ln Hin.
  rewrite lookup_final_index in Hin. apply in_occurrences_of in Hin.
  unfold entries in Hin. apply in_flat_map in Hin as (path' & _ & Hin).
  pose proof (file_entries_same_file _ _ _ _ _ Hin) as Heq; subst path'.
  rewrite Hnil in Hin. destruct Hin.
Qed.

(** C7: when line 3 of a file lacks "#Channel" or "#Cue" (compared as
    exact strings), the file gets the missing-columns warning that names
    it and nothing of it is indexed: the dictionary is unchanged, and no
    run has an occurrence located in that file. *)
Theorem missing_required_column_skips_file (fs : FS) file_path lines hd :
  fs file_path = Some (Text lines) ->
  physical_line lines 3 = Some hd ->
  ~ In "#Channel" (names hd) \/ ~ In "#Cue" (names hd) ->
  (forall m, process_file fs file_path m
             = (m, [WarnMissingColumns file_path; HintColumns]))
  /\ (forall before after,
        final_index fs (before ++ file_path :: after) = final_index fs (before ++ after))
  /\ (forall file_paths p ln,
        ~ In (file_path, ln) (lookup p (final_index fs file_paths))).
Proof.
  intros Hfs Hhd Hmiss.
  destruct lines as [|l1 [|l2 [|hd' data]]]; try discriminate.
  cbn in Hhd. injection Hhd as ->.
  assert (Hreq : has_required_columns (names hd) = false).
  { destruct (has_required_columns (names hd)) eqn:Hreq; [|reflexivity].
    apply has_required_columns_In in Hreq. tauto. }
  assert (Hnil : file_entries fs file_path = []).
  { unfold file_entries, frame_of. rewrite Hfs. cbn [read_csv columns].
    rewrite Hreq. reflexivity. }
  repeat split.
  - intros m. unfold process_file. rewrite Hfs. cbn [read_csv columns].
    rewrite Hreq. reflexivity.
  - intros before after. rewrite !final_index_entries, entries_skip; auto.
  - apply no_entries_no_occurrence, Hnil.
Qed.

Lemma missing_required_column_skips_file_witness :
  (forall m, process_file Samples.fs "lower.csv" m
             = (m, [WarnMissingColumns "lower.csv"; HintColumns]))
  /\ (forall before after,
        final_index Samples.fs (before ++ "lower.csv" :: after)
        = final_index Samples.fs (before ++ after))
  /\ (forall file_paths p ln,
        ~ In ("lower.csv", ln) (lookup p (final_index Samples.fs file_paths))).
Proof.
  apply (missing_required_column_skips_file Samples.fs "lower.csv"
           Samples.file_lower Samples.header_lower);
    try reflexivity.
  left. vm_compute. intuition discriminate.
Defined.

(** ** C8: the order of the files *)

Lemma occurrences_of_Permutation p es es' :
  Permutation es es' -> Permutation (occurrences_of p es) (occurrences_of p es').
Proof.
  intros H. unfold occurrences_of. apply Permutation_map.
  induction H; cbn [filter].
  - constructor.
  - destruct (pair_eqb (fst x) p); [constructor|]; assumption.
  - destruct (pair_eqb (fst x) p), (pair_eqb (fst y) p);
      try constructor; apply Permutation_refl.
  - eapply Permutation_trans; eauto.
Qed.

(** C8: giving the same files in another order changes neither which
    pairs are reported nor the count of any pair: the occurrences of a
    pair are the same up to their order, and each reported pair has its
    block with its own list in both runs. *)
Theorem file_order_does_not_change_duplicates fs file_paths file_paths' :
  Permutation file_paths file_paths' ->
  forall c q,
    let occs := lookup (c, q) (final_index fs file_paths) in
    let occs' := lookup (c, q) (final_index fs file_paths') in
    let out := check_duplicate_channel_cue fs file_paths in
    let out' := check_duplicate_channel_cue fs file_paths' in
    Permutation occs occs'
    /\ List.length occs = List.length occs'
    /\ (In (DupFound c q) out <-> In (DupFound c q) out')
    /\ (In (DupFound c q) out ->
        prints_block out (c, q) occs /\ prints_block out' (c, q) occs').
Proof.
  intros Hperm c q. cbv zeta.
  assert (Hp : Permutation (lookup (c, q) (final_index fs file_paths))
                 (lookup (c, q) (final_index fs file_paths'))).
  { rewrite !lookup_final_index. apply occurrences_of_Permutation.
    unfold entries. apply Permutation_flat_map, Hperm. }
  pose proof (Permutation_length Hp) as Hlen.
  split; [exact Hp|]. split; [exact Hlen|]. split.
  - rewrite !in_check_DupFound, Hlen. reflexivity.
  - intros Hin. apply in_check_DupFound in Hin.
    split; apply prints_block_check; lia.
Qed.

Lemma file_order_does_not_change_duplicates_witness :
  Permutation (lookup (1%Z, 1%Z) (final_index Samples.fs ["A.csv"; "B.csv"]))
    (lookup (1%Z, 1%Z) (final_index Samples.fs ["B.csv"; "A.csv"]))
  /\ 3 = 3
  /\ (In (DupFound 1 1) (check_duplicate_channel_cue Samples.fs ["A.csv"; "B.csv"])
      <-> In (DupFound 1 1) (check_duplicate_channel_cue Samples.fs ["B.csv"; "A.csv"]))
  /\ (In (DupFound 1 1) (check_duplicate_channel_cue Samples.fs ["A.csv"; "B.csv"]) ->
      prints_block (check_duplicate_channel_cue Samples.fs ["A.csv"; "B.csv"]) (1%Z, 1%Z)
        [("A.csv", 3); ("A.csv", 5); ("B.csv", 3)]
      /\ prints_block (check_duplicate_channel_cue Samples.fs ["B.csv"; "A.csv"]) (1%Z, 1%Z)
        [("B.csv", 3); ("A.csv", 3); ("A.csv", 5)]).
Proof.
  apply (file_order_does_not_change_duplicates Samples.fs
           ["A.csv"; "B.csv"] ["B.csv"; "A.csv"] (perm_swap _ _ _) 1%Z 1%Z).
Defined.

(** ** C9: an unexpected error in the middle of a file *)

Lemma reached_app_fatal cols before bad after :
  reached cols before = before ->
  is_fatal cols bad = true ->
  reached cols (before ++ bad :: after) = before.
Proof.
  induction before as [|r before IH]; cbn [reached app]; intros Hpre Hbad.
  - rewrite Hbad; reflexivity.
  - destruct (is_fatal cols r); [discriminate|].
    injection Hpre as Hpre. rewrite IH; auto.
Qed.

Lemma iterrows_loop_app file_path cols rs1 rs2 : forall i m,
  iterrows_loop file_path cols i (rs1 ++ rs2) m =
  match iterrows_loop file_path cols i rs1 m with
  | (m1, o1, None) =>
      let '(m2, o2, exn) :=
        iterrows_loop file_path cols (i + List.length rs1) rs2 m1 in
      (m2, o1 ++ o2, exn)
  | (m1, o1, Some e) => (m1, o1, Some e)
  end.
Proof.
  induction rs1 as [|row rs1 IH]; intros i m; cbn [iterrows_loop app List.length].
  - rewrite Nat.add_0_r.
    destruct (iterrows_loop file_path cols i rs2 m) as [[m2 o2] exn]; reflexivity.
  - destruct (process_row file_path cols i row m) as [[m0 o0]|e]; [|reflexivity].
    rewrite IH. replace (S i + List.length rs1) with (i + S (List.length rs1)) by lia.
    destruct (iterrows_loop file_path cols (S i) rs1 m0) as [[m1 o1] [e|]];
      [reflexivity|].
    destruct (iterrows_loop file_path cols (i + S (List.length rs1)) rs2 m1)
      as [[m2 o2] exn].
    rewrite app_assoc; reflexivity.
Qed.

(** C9: when a row of a file raises an unexpected error, what the rows
    before it appended stays in the dictionary: the file is processed
    exactly as if it ended before that row, except for the message about
    the error; the occurrences of the earlier rows are in the final
    dictionary of every run with that file and are shown in the report
    when their pair is a duplicate; the rows after the error add
    nothing. *)
Theorem unexpected_error_keeps_earlier_occurrences
    (fs : FS) file_path content df before bad after e :
  fs file_path = Some content ->
  read_csv content = Ok df ->
  has_required_columns (columns df) = true ->
  rows df = before ++ bad :: after ->
  reached (columns df) before = before ->
  row_status (columns df) bad = FatalKey e ->
  (forall m, exists m' out,
      iterrows_loop file_path (columns df) 0 before m = (m', out, None)
      /\ m' = record_all (rows_entries file_path (columns df) 0 before) m
      /\ process_file fs file_path m = (m', out ++ [ErrUnexpected file_path e]))
  /\ file_entries fs file_path = rows_entries file_path (columns df) 0 before
  /\ (forall p f ln file_paths,
        In (p, (f, ln)) (rows_entries file_path (columns df) 0 before) ->
        In file_path file_paths ->
        In (f, ln) (lookup p (final_index fs file_paths))
        /\ (2 <= List.length (lookup p (final_index fs file_paths)) ->
            In (Location f (ln + 1)) (check_duplicate_channel_cue fs file_paths))).
Proof.
  intros Hfs Hread Hreq Hrows Hpre Hbad.
  assert (Hfatal : is_fatal (columns df) bad = true)
    by (unfold is_fatal; rewrite Hbad; reflexivity).
  assert (Hent : file_entries fs file_path
                 = rows_entries file_path (columns df) 0 before).
  { unfold file_entries, frame_of. rewrite Hfs, Hread, Hreq, Hrows.
    rewrite reached_app_fatal; auto. }
  split; [|split; [exact Hent|]].
  - intros m.
    destruct (iterrows_loop_entries file_path (columns df) before 0 m)
      as (out & exn & Hloop & _ & Hnone & _).
    rewrite Hpre in Hloop. rewrite (proj2 Hnone Hpre) in Hloop.
    eexists _, out. split; [exact Hloop|]. split; [reflexivity|].
    unfold process_file. rewrite Hfs, Hread, Hreq, Hrows. cbn [negb].
    rewrite iterrows_loop_app, Hloop. cbn [iterrows_loop].
    rewrite process_row_status, Hbad. rewrite app_nil_r.
    apply row_status_fatal in Hbad; subst e. reflexivity.
  - intros p f ln file_paths Hin Hpath.
    assert (Hlk : In (f, ln) (lookup p (final_index fs file_paths))).
    { rewrite lookup_final_index. apply in_occurrences_of.
      unfold entries. apply in_flat_map. exists file_path.
      split; [exact Hpath|]. rewrite Hent. exact Hin. }
    split; [exact Hlk|]. intros Hlen. eapply Location_printed; eauto.
Qed.

Lemma unexpected_error_keeps_earlier_occurrences_witness :
  In ("E.csv", 4) (lookup (3%Z, 7%Z) (final_index Samples.fs ["E.csv"]))
  /\ (2 <= List.length (lookup (3%Z, 7%Z) (final_index Samples.fs ["E.csv"])) ->
      In (Location "E.csv" (4 + 1)) (check_duplicate_channel_cue Samples.fs ["E.csv"])).
Proof.
  apply (proj2 (proj2 (unexpected_error_keeps_earlier_occurrences Samples.fs "E.csv"
           (Text Samples.file_E)
           (mkFrame (names Samples.header)
              (map cells (skipn 3 Samples.file_E)))
           [cells (Samples.data Samples.three_float Samples.seven);
            cells (Samples.data Samples.three_float Samples.seven)]
           (cells (Samples.data Samples.inf Samples.one))
           [cells (Samples.data Samples.three_float Samples.seven)]
           OverflowError
           eq_refl eq_refl eq_refl eq_refl eq_refl eq_refl))
         (3%Z, 7%Z) "E.csv" 4 ["E.csv"]).
  - vm_compute. right; left; reflexivity.
  - left; reflexivity.
Defined.

(** ** C10: no key with an empty list *)

Lemma append_occ_new_key p o m :
  ~ In p (keys m) -> append_occ p o m = m ++ [(p, [o])].
Proof.
  induction m as [|[k occs] m IH]; cbn [append_occ keys map fst app In]; intros H.
  - reflexivity.
  - destruct (pair_eqb k p) eqn:Hk.
    + apply pair_eqb_eq in Hk. tauto.
    + rewrite IH; [reflexivity|tauto].
Qed.

(** C10: a key enters the dictionary together with its first occurrence,
    and after any number of files and any number of rows of a further
    file every list in the dictionary is non-empty; in particular every
    key present has an occurrence, and every count printed in the report
    is at least 2. *)
Theorem index_lists_are_never_empty fs file_paths :
  (forall p o m, ~ In p (keys m) -> append_occ p o m = m ++ [(p, [o])])
  /\ no_empty_list (final_index fs file_paths)
  /\ (forall file_path cols idx rs,
        no_empty_list
          (fst (fst (iterrows_loop file_path cols idx rs (final_index fs file_paths)))))
  /\ (forall p, In p (keys (final_index fs file_paths)) ->
        lookup p (final_index fs file_paths) <> [])
  /\ (forall n, In (TotalOccurrences n) (check_duplicate_channel_cue fs file_paths) ->
        2 <= n).
Proof.
  assert (Hne : no_empty_list (final_index fs file_paths)).
  { rewrite final_index_entries. apply no_empty_list_record_all. constructor. }
  split; [exact append_occ_new_key|]. split; [exact Hne|]. split; [|split].
  - intros file_path cols idx rs.
    destruct (iterrows_loop_entries file_path cols rs idx (final_index fs file_paths))
      as (out & exn & -> & _).
    cbn [fst]. apply no_empty_list_record_all, Hne.
  - intros p Hin. unfold keys in Hin. apply in_map_iff in Hin as ([p' occs] & <- & Hin).
    cbn [fst]. rewrite (lookup_In p' occs); auto using NoDup_keys_final_index.
    unfold no_empty_list in Hne. rewrite Forall_forall in Hne.
    apply (Hne _ Hin).
  - intros n Hin. apply in_check_output in Hin; [|reflexivity].
    destruct Hin as [Hin|Hin].
    + cbn [In] in Hin. unfold closing in Hin. destruct (negb _); intuition discriminate.
    + apply in_blocks_of in Hin as (p & occs & _ & Hlen & Hin).
      apply in_report_block in Hin.
      destruct Hin as [Heq|[Heq|[Heq|(f & l & _ & Heq)]]]; try discriminate.
      injection Heq as ->. exact Hlen.
Qed.

Lemma index_lists_are_never_empty_witness :
  lookup (3%Z, 7%Z) (final_index Samples.fs ["E.csv"; "A.csv"]) <> []
  /\ 2 <= 2.
Proof.
  split.
  - apply (proj1 (proj2 (proj2 (proj2
             (index_lists_are_never_empty Samples.fs ["E.csv"; "A.csv"]))))).
    vm_compute. left; reflexivity.
  - apply (proj2 (proj2 (proj2 (proj2
             (index_lists_are_never_empty Samples.fs ["E.csv"; "A.csv"]))))).
    vm_compute. do 8 right. left; reflexivity.
Defined.

(** * Further properties of the code *)

(** ** The shape of the output *)

Lemma blocks_of_block_msgs m : forallb is_block_msg (blocks_of m) = true.
Proof.
  apply forallb_forall. intros msg Hin.
  apply in_blocks_of in Hin as (p & occs & _ & _ & Hin).
  apply in_report_block in Hin.
  destruct Hin as [->|[->|[->|(f & l & _ & ->)]]]; reflexivity.
Qed.

(** X1: the three phases show in the output one after the other: the
    banner with the number of paths given (whether the files exist or
    not), then only diagnostics of the files, then the summary header,
    then only lines of duplicate blocks, then a rule and one closing
    message. *)
Theorem output_phases_in_order fs file_paths :
  exists diagnostics blocks final,
    check_duplicate_channel_cue fs file_paths =
      [Banner (List.length file_paths); Rule; Note; Rule]
        ++ diagnostics ++ [Rule; SummaryHeader] ++ blocks ++ [Rule; final]
    /\ diagnostics = snd (process_files fs file_paths [])
    /\ forallb is_diagnostic diagnostics = true
    /\ forallb is_block_msg blocks = true
    /\ (final = Success \/ final = Completed).
Proof.
  unfold check_duplicate_channel_cue.
  destruct (process_files_entries fs file_paths []) as (out & Heq & Hd).
  rewrite Heq. rewrite report_loop_blocks.
  exists out, (blocks_of (record_all (entries fs file_paths) [])),
    (closing (false || existsb is_duplicate (record_all (entries fs file_paths) []))).
  split; [reflexivity|]. split; [reflexivity|]. split; [exact Hd|].
  split; [apply blocks_of_block_msgs|].
  unfold closing. destruct (negb _); auto.
Qed.

(** ** The order of the blocks *)

Lemma pair_eqb_sym p q : pair_eqb p q = pair_eqb q p.
Proof.
  destruct (pair_eqb p q) eqn:H1, (pair_eqb q p) eqn:H2; try reflexivity.
  - apply pair_eqb_eq in H1; subst. rewrite pair_eqb_refl in H2; discriminate.
  - apply pair_eqb_eq in H2; subst. rewrite pair_eqb_refl in H1; discriminate.
Qed.

Lemma existsb_pair_eqb_In p ks : existsb (pair_eqb p) ks = true <-> In p ks.
Proof.
  rewrite existsb_exists. split.
  - intros (k & Hin & Heq). apply pair_eqb_eq in Heq; subst; exact Hin.
  - intros Hin. exists p; split; [exact Hin|apply pair_eqb_refl].
Qed.

Lemma keys_append_occ p o m :
  keys (append_occ p o m) =
  if existsb (pair_eqb p) (keys m) then keys m else keys m ++ [p].
Proof.
  induction m as [|[k occs] m IH]; cbn [append_occ keys map fst existsb app].
  - reflexivity.
  - rewrite (pair_eqb_sym p k). destruct (pair_eqb k p); cbn [orb map fst].
    + reflexivity.
    + fold (keys (append_occ p o m)). rewrite IH. fold (keys m).
      destruct (existsb (pair_eqb p) (keys m)); reflexivity.
Qed.

Lemma filter_filter {A} (f g : A -> bool) l :
  filter f (filter g l) = filter (fun x => f x && g x) l.
Proof.
  induction l as [|x l IH]; cbn [filter]; [reflexivity|].
  destruct (g x); cbn [filter]; rewrite ?andb_true_r, ?andb_false_r;
    [destruct (f x)|]; rewrite IH; reflexivity.
Qed.

Lemma filter_all {A} (f : A -> bool) l :
  (forall x, In x l -> f x = true) -> filter f l = l.
Proof.
  induction l as [|x l IH]; cbn [filter]; intros H; [reflexivity|].
  rewrite (H x (or_introl eq_refl)). f_equal. apply IH. intros y Hy; apply H; right; exact Hy.
Qed.

(** The keys after recording entries: the old keys, then the new pairs
    in the order in which they are first seen. *)
Lemma keys_record_all es : forall m,
  keys (record_all es m) =
  keys m ++ filter (fun q => negb (existsb (pair_eqb q) (keys m)))
                   (first_seen (map fst es)).
Proof.
  induction es as [|[p o] es IH]; intros m.
  - cbn. rewrite app_nil_r. reflexivity.
  - change (record_all ((p, o) :: es) m) with (record_all es (append_occ p o m)).
    rewrite IH, keys_append_occ. cbn [map fst first_seen filter].
    destruct (existsb (pair_eqb p) (keys m)) eqn:Hp; cbn [negb].
    + f_equal. rewrite filter_filter. apply filter_ext. intros q.
      destruct (pair_eqb p q) eqn:Hpq; cbn [negb]; [|rewrite andb_true_r; reflexivity].
      apply pair_eqb_eq in Hpq; subst q. rewrite Hp. reflexivity.
    + rewrite <- app_assoc. cbn [app]. do 2 f_equal.
      rewrite filter_filter. apply filter_ext. intros q.
      rewrite existsb_app. cbn [existsb]. rewrite orb_false_r, negb_orb.
      rewrite (pair_eqb_sym q p). reflexivity.
Qed.

Lemma keys_final_index fs file_paths :
  keys (final_index fs file_paths) = first_seen (map fst (entries fs file_paths)).
Proof.
  rewrite final_index_entries, keys_record_all. cbn [keys map app].
  apply filter_all. reflexivity.
Qed.

Lemma reported_pairs_app l1 l2 :
  reported_pairs (l1 ++ l2) = reported_pairs l1 ++ reported_pairs l2.
Proof. unfold reported_pairs; apply flat_map_app. Qed.

Lemma reported_pairs_none out :
  (forall c q, ~ In (DupFound c q) out) -> reported_pairs out = [].
Proof.
  induction out as [|msg out IH]; intros H; [reflexivity|].
  unfold reported_pairs in *; cbn [flat_map].
  rewrite IH by (intros c q Hin; apply (H c q); right; exact Hin).
  destruct msg; try reflexivity.
  exfalso. apply (H channel cue). left; reflexivity.
Qed.

Lemma reported_pairs_blocks_of m :
  reported_pairs (blocks_of m) = map fst (filter is_duplicate m).
Proof.
  induction m as [|[[c q] occs] m IH]; [reflexivity|].
  rewrite blocks_of_cons. cbn [filter]. unfold is_duplicate at 1; cbn [snd].
  destruct (1 <? List.length occs)%nat; [|exact IH].
  rewrite reported_pairs_app, IH. cbn [map fst]. unfold report_block.
  change (DupFound c q :: TotalOccurrences (List.length occs) :: LocationsHeader
            :: map show_location occs)
    with ([DupFound c q; TotalOccurrences (List.length occs); LocationsHeader]
            ++ map show_location occs).
  rewrite reported_pairs_app.
  rewrite (reported_pairs_none (map show_location occs)); [reflexivity|].
  intros c' q' Hin. apply in_map_iff in Hin as ([f l] & Heq & _). discriminate.
Qed.

Lemma duplicate_keys m :
  NoDup (keys m) ->
  map fst (filter is_duplicate m)
  = filter (fun p => (1 <? List.length (lookup p m))%nat) (keys m).
Proof.
  induction m as [|[k occs] m IH]; intros Hnd; [reflexivity|].
  cbn [keys map fst] in Hnd. inversion Hnd as [|? ? Hk Hm]; subst.
  cbn [filter keys map fst lookup]. rewrite pair_eqb_refl.
  unfold is_duplicate at 1; cbn [snd].
  assert (Htail : filter (fun p => (1 <? List.length
                      (if pair_eqb k p then occs else lookup p m))%nat) (map fst m)
                  = filter (fun p => (1 <? List.length (lookup p m))%nat) (keys m)).
  { apply filter_ext_in. intros p Hp.
    destruct (pair_eqb k p) eqn:Hkp; [|reflexivity].
    apply pair_eqb_eq in Hkp; subst p. contradiction. }
  rewrite Htail, <- (IH Hm).
  destruct (1 <? List.length occs)%nat; reflexivity.
Qed.

(** X2: the duplicate pairs are reported in the order in which they are
    first seen in the input (files in the order given, rows in file
    order), each one once. *)
Theorem duplicates_reported_in_first_seen_order fs file_paths :
  reported_pairs (check_duplicate_channel_cue fs file_paths) =
  filter (fun p => (1 <? List.length (occurrences_of p (entries fs file_paths)))%nat)
         (first_seen (map fst (entries fs file_paths))).
Proof.
  destruct (check_output fs file_paths) as (diag & Hd & ->).
  rewrite !reported_pairs_app, reported_pairs_blocks_of.
  rewrite (reported_pairs_none diag)
    by (intros c q; apply diagnostic_not_in; [exact Hd|reflexivity]).
  rewrite (reported_pairs_none [Rule; closing _])
    by (intros c q Hin; cbn [In] in Hin; unfold closing in Hin;
        destruct (negb _); intuition discriminate).
  cbn [reported_pairs flat_map app]. rewrite app_nil_r.
  rewrite duplicate_keys by apply NoDup_keys_final_index.
  rewrite keys_final_index. apply filter_ext. intros p.
  rewrite lookup_final_index. reflexivity.
Qed.

(** ** Files only append *)

(** X3: processing files never removes or reorders what the dictionary
    holds: started from any dictionary, the list of every pair is its old
    list followed by what the files contribute, and the old keys stay in
    front.  So a run over [l1 ++ l2] is the run over [l2] continued from
    the run over [l1], and its lists are the concatenations. *)
Theorem files_only_append fs l1 l2 m p :
  lookup p (fst (process_files fs l2 m)) = lookup p m ++ lookup p (final_index fs l2)
  /\ (exists new_keys, keys (fst (process_files fs l2 m)) = keys m ++ new_keys)
  /\ final_index fs (l1 ++ l2) = fst (process_files fs l2 (final_index fs l1))
  /\ lookup p (final_index fs (l1 ++ l2))
     = lookup p (final_index fs l1) ++ lookup p (final_index fs l2).
Proof.
  destruct (process_files_entries fs l2 m) as (out & Heq & _).
  rewrite Heq. cbn [fst]. repeat split.
  - rewrite lookup_record_all, lookup_final_index. reflexivity.
  - rewrite keys_record_all. eexists; reflexivity.
  - destruct (process_files_entries fs l2 (final_index fs l1)) as (out' & Heq' & _).
    rewrite Heq'. cbn [fst]. rewrite !final_index_entries, entries_app.
    apply record_all_app.
  - rewrite !lookup_final_index, entries_app. apply occurrences_of_app.
Qed.

(** ** Every row once *)

Lemma total_occurrences_append_occ p o m :
  total_occurrences (append_occ p o m) = S (total_occurrences m).
Proof.
  unfold total_occurrences.
  induction m as [|[k occs] m IH]; cbn [append_occ map snd List.concat].
  - reflexivity.
  - destruct (pair_eqb k p); cbn [map snd List.concat].
    + rewrite !length_app. cbn [List.length]. lia.
    + rewrite !length_app, IH. lia.
Qed.

Lemma total_occurrences_record_all es : forall m,
  total_occurrences (record_all es m) = total_occurrences m + List.length es.
Proof.
  induction es as [|[p o] es IH]; intros m.
  - change (record_all [] m) with m. cbn [List.length]. lia.
  - change (record_all ((p, o) :: es) m) with (record_all es (append_occ p o m)).
    rewrite IH, total_occurrences_append_occ. cbn [List.length]. lia.
Qed.

(** X4: the dictionary holds as many occurrences, all pairs together, as
    there are reached rows with valid keys in the files given: each such
    row is recorded exactly once, the first of a pair like the repeats. *)
Theorem every_valid_row_recorded_once fs file_paths :
  total_occurrences (final_index fs file_paths)
  = List.length (entries fs file_paths).
Proof.
  rewrite final_index_entries, total_occurrences_record_all. reflexivity.
Qed.

Lemma rows_entries_line_ge file_path cols p f ln rs i :
  In (p, (f, ln)) (rows_entries file_path cols i rs) -> i + 3 <= ln.
Proof.
  intros H. apply in_rows_entries in H as (_ & idx & row & -> & _). lia.
Qed.

Lemma NoDup_rows_entries file_path cols rs : forall i,
  NoDup (map snd (rows_entries file_path cols i rs)).
Proof.
  induction rs as [|row rs IH]; intros i; [constructor|].
  rewrite rows_entries_cons. unfold row_entry; cbn [fst snd].
  destruct (valid_key cols row) as [p|]; cbn [app map snd]; [|apply IH].
  constructor; [|apply IH].
  intros Hin. apply in_map_iff in Hin as ([p' [f ln]] & Heq & Hin).
  cbn [snd] in Heq. injection Heq as -> ->.
  apply rows_entries_line_ge in Hin. lia.
Qed.

Lemma NoDup_entries fs file_paths :
  NoDup file_paths -> NoDup (map snd (entries fs file_paths)).
Proof.
  induction file_paths as [|f rest IH]; intros Hnd; [constructor|].
  inversion Hnd as [|? ? Hf Hrest]; subst.
  unfold entries; cbn [flat_map]. rewrite map_app. apply NoDup_app.
  - unfold file_entries. destruct (frame_of fs f); [apply NoDup_rows_entries|constructor].
  - apply IH, Hrest.
  - intros [f' ln] Hin1 Hin2.
    apply in_map_iff in Hin1 as ([p1 o1] & Heq1 & Hin1). cbn [snd] in Heq1; subst o1.
    apply in_map_iff in Hin2 as ([p2 o2] & Heq2 & Hin2). cbn [snd] in Heq2; subst o2.
    apply file_entries_same_file in Hin1; subst f'.
    apply in_flat_map in Hin2 as (f'' & Hf'' & Hin2).
    apply file_entries_same_file in Hin2; subst f''. contradiction.
Qed.

Lemma NoDup_occurrences_of p es :
  NoDup (map snd es) -> NoDup (occurrences_of p es).
Proof.
  unfold occurrences_of.
  induction es as [|[q o] es IH]; cbn [map snd filter fst]; intros Hnd; [constructor|].
  inversion Hnd as [|? ? Ho Hes]; subst.
  destruct (pair_eqb q p); cbn [map snd]; [|apply IH, Hes].
  constructor; [|apply IH, Hes].
  intros Hin. apply Ho. apply in_map_iff in Hin as (e & <- & Hin).
  apply filter_In in Hin as [Hin _]. apply in_map; exact Hin.
Qed.

(** X5: when no path is given twice, no location is listed twice: the
    occurrences of a pair are pairwise different (file, line)
    locations. *)
Theorem distinct_paths_give_distinct_locations fs file_paths p :
  NoDup file_paths -> NoDup (lookup p (final_index fs file_paths)).
Proof.
  intros Hnd. rewrite lookup_final_index.
  apply NoDup_occurrences_of, NoDup_entries, Hnd.
Qed.

Lemma distinct_paths_give_distinct_locations_witness :
  NoDup (lookup (1%Z, 1%Z) (final_index Samples.fs ["A.csv"; "B.csv"])).
Proof.
  apply (distinct_paths_give_distinct_locations Samples.fs ["A.csv"; "B.csv"] (1%Z, 1%Z)).
  repeat constructor; cbn [In]; intuition discriminate.
Defined.

(** ** Duplicates across files and across repeated paths *)

Lemma occurrences_of_nonempty p o es :
  In (p, o) es -> 1 <= List.length (occurrences_of p es).
Proof.
  intros Hin. apply in_occurrences_of in Hin.
  destruct (occurrences_of p es); [destruct Hin|cbn [List.length]; lia].
Qed.

(** X6: duplicates are found across the whole list of paths: when two
    positions of the list (two files, or the same path given twice) each
    contribute an occurrence of a pair, the pair is reported and both
    locations are shown, the stored line plus one each. *)
Theorem pair_at_two_positions_is_reported fs l1 f1 l2 f2 l3 p o1 o2 :
  In (p, o1) (file_entries fs f1) ->
  In (p, o2) (file_entries fs f2) ->
  let file_paths := l1 ++ f1 :: l2 ++ f2 :: l3 in
  let out := check_duplicate_channel_cue fs file_paths in
  2 <= List.length (lookup p (final_index fs file_paths))
  /\ In (DupFound (fst p) (snd p)) out
  /\ In (Location (fst o1) (snd o1 + 1)) out
  /\ In (Location (fst o2) (snd o2 + 1)) out.
Proof.
  intros H1 H2. cbv zeta.
  set (file_paths := l1 ++ f1 :: l2 ++ f2 :: l3).
  assert (Hlen : 2 <= List.length (lookup p (final_index fs file_paths))).
  { rewrite lookup_final_index. unfold file_paths.
    rewrite entries_app. unfold entries at 2; cbn [flat_map]. fold (entries fs (l2 ++ f2 :: l3)).
    rewrite entries_app. unfold entries at 3; cbn [flat_map].
    rewrite !occurrences_of_app, !length_app.
    apply occurrences_of_nonempty in H1, H2. lia. }
  assert (Hin : forall f o, In f file_paths -> In (p, o) (file_entries fs f) ->
                  In o (lookup p (final_index fs file_paths))).
  { intros f o Hf Ho. rewrite lookup_final_index. apply in_occurrences_of.
    unfold entries. apply in_flat_map. exists f; auto. }
  split; [exact Hlen|]. split; [|split].
  - destruct p as [c q]. apply in_check_DupFound, Hlen.
  - destruct o1 as [f ln]. apply (Location_printed fs file_paths p); [|exact Hlen].
    apply (Hin f1); [|exact H1]. unfold file_paths. rewrite in_app_iff. right; left; reflexivity.
  - destruct o2 as [f ln]. apply (Location_printed fs file_paths p); [|exact Hlen].
    apply (Hin f2); [|exact H2]. unfold file_paths.
    rewrite in_app_iff. right; right. rewrite in_app_iff. right; left; reflexivity.
Qed.

Lemma pair_at_two_positions_is_reported_witness :
  2 <= List.length (lookup (2%Z, 1%Z) (final_index Samples.fs ["A.csv"; "A.csv"]))
  /\ In (DupFound 2 1) (check_duplicate_channel_cue Samples.fs ["A.csv"; "A.csv"])
  /\ In (Location "A.csv" (4 + 1)) (check_duplicate_channel_cue Samples.fs ["A.csv"; "A.csv"])
  /\ In (Location "A.csv" (4 + 1)) (check_duplicate_channel_cue Samples.fs ["A.csv"; "A.csv"]).
Proof.
  apply (pair_at_two_positions_is_reported Samples.fs [] "A.csv" [] "A.csv" []
           (2%Z, 1%Z) ("A.csv", 4) ("A.csv", 4));
    vm_compute; right; left; reflexivity.
Defined.

(** ** Runs without duplicates *)

Lemma occurrences_of_unique p es :
  NoDup (map fst es) -> List.length (occurrences_of p es) <= 1.
Proof.
  unfold occurrences_of.
  induction es as [|[q o] es IH]; cbn [map fst filter]; intros Hnd; [cbn; lia|].
  inversion Hnd as [|? ? Hq Hes]; subst.
  destruct (pair_eqb q p) eqn:Hqp; [|apply IH, Hes].
  apply pair_eqb_eq in Hqp; subst q. cbn [map List.length].
  assert (Hnil : filter (fun e => pair_eqb (fst e) p) es = []).
  { destruct (filter (fun e => pair_eqb (fst e) p) es) as [|e l] eqn:Hf; [reflexivity|].
    exfalso. apply Hq.
    assert (Hin : In e (filter (fun e => pair_eqb (fst e) p) es))
      by (rewrite Hf; left; reflexivity).
    apply filter_In in Hin as [Hin Heq]. apply pair_eqb_eq in Heq; subst p.
    apply in_map; exact Hin. }
  rewrite Hnil. cbn. lia.
Qed.

Lemma blocks_of_no_duplicate m :
  existsb is_duplicate m = false -> blocks_of m = [].
Proof.
  unfold blocks_of. induction m as [|e m IH]; cbn [existsb filter]; [reflexivity|].
  intros H. apply orb_false_iff in H as [He Hm]. rewrite He. apply IH, Hm.
Qed.

(** X7: when every pair occurs in at most one reached row with valid
    keys, the output is the banner, the diagnostics of the files, the
    summary header without any block, and the success message; bad rows
    and unreadable files do not change that. *)
Theorem unique_pairs_give_success fs file_paths :
  NoDup (map fst (entries fs file_paths)) ->
  check_duplicate_channel_cue fs file_paths =
    [Banner (List.length file_paths); Rule; Note; Rule]
      ++ snd (process_files fs file_paths [])
      ++ [Rule; SummaryHeader; Rule; Success].
Proof.
  intros Hnd.
  assert (Hex : existsb is_duplicate (final_index fs file_paths) = false).
  { destruct (existsb is_duplicate (final_index fs file_paths)) eqn:He; [|reflexivity].
    apply existsb_is_duplicate in He; [|apply NoDup_keys_final_index].
    destruct He as (p & Hlen). rewrite lookup_final_index in Hlen.
    pose proof (occurrences_of_unique p _ Hnd). lia. }
  unfold check_duplicate_channel_cue, final_index in *.
  destruct (process_files fs file_paths []) as [m out]. cbn [fst snd] in *.
  rewrite report_loop_blocks, Hex, (blocks_of_no_duplicate m Hex). reflexivity.
Qed.

Lemma unique_pairs_give_success_witness :
  check_duplicate_channel_cue Samples.fs ["C.csv"; "locked.csv"] =
    [Banner (List.length ["C.csv"; "locked.csv"]); Rule; Note; Rule]
      ++ snd (process_files Samples.fs ["C.csv"; "locked.csv"] [])
      ++ [Rule; SummaryHeader; Rule; Success].
Proof.
  apply (unique_pairs_give_success Samples.fs ["C.csv"; "locked.csv"]).
  vm_compute. repeat constructor. intros [].
Defined.

(** X8: when none of the paths exists, the run still ends with the
    success message: the output is the banner, one not-found error per
    path in the order given, and the empty summary. *)
Theorem missing_files_still_give_success (fs : FS) file_paths :
  (forall f, In f file_paths -> fs f = None) ->
  check_duplicate_channel_cue fs file_paths =
    [Banner (List.length file_paths); Rule; Note; Rule]
      ++ map ErrNotFound file_paths
      ++ [Rule; SummaryHeader; Rule; Success].
Proof.
  intros Hnone.
  assert (Hpf : forall m, process_files fs file_paths m = (m, map ErrNotFound file_paths)).
  { induction file_paths as [|f rest IH]; intros m; [reflexivity|].
    cbn [process_files map]. unfold process_file.
    rewrite (Hnone f (or_introl eq_refl)).
    rewrite IH by (intros f' Hf'; apply Hnone; right; exact Hf'). reflexivity. }
  unfold check_duplicate_channel_cue. rewrite Hpf. reflexivity.
Qed.

Lemma missing_files_still_give_success_witness :
  check_duplicate_channel_cue Samples.fs ["nope.csv"; "gone.csv"] =
    [Banner (List.length ["nope.csv"; "gone.csv"]); Rule; Note; Rule]
      ++ map ErrNotFound ["nope.csv"; "gone.csv"]
      ++ [Rule; SummaryHeader; Rule; Success].
Proof.
  apply (missing_files_still_give_success Samples.fs ["nope.csv"; "gone.csv"]).
  intros f [<-|[<-|[]]]; reflexivity.
Defined.

(** ** The messages of a file *)

Lemma rows_warnings_cons file_path cols i row rs :
  rows_warnings file_path cols i (row :: rs) =
  match row_status cols row with
  | FatalKey _ => []
  | InvalidKey => WarnBadRow (i + 3) file_path :: rows_warnings file_path cols (S i) rs
  | _ => rows_warnings file_path cols (S i) rs
  end.
Proof.
  unfold rows_warnings. rewrite reached_cons.
  destruct (row_status cols row) eqn:Hst; try reflexivity;
    rewrite enumerate_from_cons; cbn [flat_map]; unfold row_warning at 1;
    cbn [fst snd]; rewrite Hst; reflexivity.
Qed.

Lemma iterrows_loop_messages file_path cols rs : forall i m,
  snd (fst (iterrows_loop file_path cols i rs m)) = rows_warnings file_path cols i rs
  /\ snd (iterrows_loop file_path cols i rs m)
     = if no_fatal_row cols rs then None else Some OverflowError.
Proof.
  induction rs as [|row rs IH]; intros i m; [split; reflexivity|].
  cbn [iterrows_loop no_fatal_row forallb].
  rewrite process_row_status, rows_warnings_cons. unfold is_fatal.
  destruct (row_status cols row) as [|p| |e] eqn:Hst; cbn [negb andb].
  - destruct (IH (S i) m) as [H1 H2].
    destruct (iterrows_loop file_path cols (S i) rs m) as [[m' out] exn].
    cbn [fst snd] in *. subst. split; reflexivity.
  - destruct (IH (S i) (append_occ p (file_path, i + 3) m)) as [H1 H2].
    destruct (iterrows_loop file_path cols (S i) rs _) as [[m' out] exn].
    cbn [fst snd] in *. subst. split; reflexivity.
  - destruct (IH (S i) m) as [H1 H2].
    destruct (iterrows_loop file_path cols (S i) rs m) as [[m' out] exn].
    cbn [fst snd] in *. subst. split; reflexivity.
  - apply row_status_fatal in Hst; subst e. split; reflexivity.
Qed.

(** X9: the messages a file with both key columns produces do not depend
    on the dictionary: one warning for every reached row whose conversion
    raises ValueError, with the number idx + 3 and in row order, no
    message for any other row, and at the end the unexpected-error
    message exactly when some row is fatal. *)
Theorem file_messages_are_its_row_warnings fs file_path df m :
  frame_of fs file_path = Some df ->
  snd (process_file fs file_path m) =
    rows_warnings file_path (columns df) 0 (rows df)
    ++ (if no_fatal_row (columns df) (rows df) then []
        else [ErrUnexpected file_path OverflowError]).
Proof.
  intros Hf. unfold frame_of in Hf. unfold process_file.
  destruct (fs file_path) as [content|]; [|discriminate].
  destruct (read_csv content) as [df'|e]; [|discriminate].
  destruct (has_required_columns (columns df')); [|discriminate].
  injection Hf as ->. cbn [negb].
  destruct (iterrows_loop_messages file_path (columns df) (rows df) 0 m) as [H1 H2].
  destruct (iterrows_loop file_path (columns df) 0 (rows df) m) as [[m' out] exn].
  cbn [fst snd] in *. subst out exn.
  destruct (no_fatal_row (columns df) (rows df)); cbn [snd];
    [rewrite app_nil_r|]; reflexivity.
Qed.

Lemma file_messages_are_its_row_warnings_witness :
  snd (process_file Samples.fs "C.csv" [((5%Z, 5%Z), [("x.csv", 9)])]) =
    [WarnBadRow 3 "C.csv"] ++ [].
Proof.
  apply (file_messages_are_its_row_warnings Samples.fs "C.csv"
           (mkFrame (names Samples.header) (map cells (skipn 3 Samples.file_C)))
           [((5%Z, 5%Z), [("x.csv", 9)])]).
  reflexivity.
Defined.

(** ** When every valid row counts *)

Lemma reached_no_fatal cols rs : no_fatal_row cols rs = true -> reached cols rs = rs.
Proof.
  unfold no_fatal_row.
  induction rs as [|row rs IH]; cbn [forallb reached]; [reflexivity|].
  intros H. apply andb_true_iff in H as [Hr Hrs].
  destruct (is_fatal cols row); [discriminate|]. rewrite IH; auto.
Qed.

(** X10: when no row of the files given raises another error than
    ValueError, every row with valid keys is recorded: the list of a
    pair is the list of all its valid rows in the input, in file and row
    order. *)
Theorem without_fatal_rows_all_valid_rows_count fs file_paths :
  (forall f df, In f file_paths -> frame_of fs f = Some df ->
                no_fatal_row (columns df) (rows df) = true) ->
  entries fs file_paths = valid_rows fs file_paths
  /\ forall p, lookup p (final_index fs file_paths)
               = occurrences_of p (valid_rows fs file_paths).
Proof.
  intros H.
  assert (Heq : entries fs file_paths = valid_rows fs file_paths).
  { unfold entries, valid_rows.
    induction file_paths as [|f rest IH]; [reflexivity|].
    cbn [flat_map]. rewrite IH by (intros f' df Hf'; apply H; right; exact Hf').
    f_equal. unfold file_entries, file_valid_rows.
    destruct (frame_of fs f) as [df|] eqn:Hdf; [|reflexivity].
    rewrite reached_no_fatal; [reflexivity|]. apply (H f); [left; reflexivity|exact Hdf]. }
  split; [exact Heq|]. intros p. rewrite lookup_final_index, Heq. reflexivity.
Qed.

Lemma without_fatal_rows_all_valid_rows_count_witness :
  entries Samples.fs ["A.csv"; "C.csv"] = valid_rows Samples.fs ["A.csv"; "C.csv"]
  /\ forall p, lookup p (final_index Samples.fs ["A.csv"; "C.csv"])
               = occurrences_of p (valid_rows Samples.fs ["A.csv"; "C.csv"]).
Proof.
  apply (without_fatal_rows_all_valid_rows_count Samples.fs ["A.csv"; "C.csv"]).
  intros f df Hin Hf.
  change (no_fatal_row (columns df) (rows df))
    with (match Some df with
          | Some d => no_fatal_row (columns d) (rows d)
          | None => true
          end).
  rewrite <- Hf.
  destruct Hin as [<-|[<-|[]]]; vm_compute; reflexivity.
Defined.

(** ** The position of the key columns *)

Lemma row_get_labelled l name :
  row_get (map fst l) (map snd l) name = labelled_get l name.
Proof.
  unfold labelled_get.
  induction l as [|[c v] l IH]; cbn [map fst snd row_get find]; [reflexivity|].
  destruct (String.eqb c name); [reflexivity|exact IH].
Qed.

Lemma find_label_Permutation (l l' : list (string * Cell)) name :
  Permutation l l' -> NoDup (map fst l) ->
  find (fun x => String.eqb (fst x) name) l = find (fun x => String.eqb (fst x) name) l'.
Proof.
  induction 1 as [|x l l' Hp IH|x y l|l l' l'' Hp1 IH1 Hp2 IH2]; intros Hnd.
  - reflexivity.
  - cbn [find]. inversion Hnd; subst. rewrite IH by assumption. reflexivity.
  - cbn [find].
    destruct (String.eqb (fst x) name) eqn:Hx, (String.eqb (fst y) name) eqn:Hy;
      try reflexivity.
    apply String.eqb_eq in Hx, Hy. cbn [map] in Hnd.
    inversion Hnd as [|? ? Hnin _]; subst. exfalso; apply Hnin. left. congruence.
  - rewrite IH1 by assumption. apply IH2.
    eapply Permutation_NoDup; [|exact Hnd]. apply Permutation_map, Hp1.
Qed.

(** X11: the key columns are found by their labels, not by their
    position: with distinct labels, reordering the columns of the header
    together with the cells of a row changes neither the check for the
    required columns nor what the loop does with the row. *)
Theorem column_order_is_irrelevant (l l' : list (string * Cell)) file_path idx m :
  Permutation l l' ->
  NoDup (map fst l) ->
  has_required_columns (map fst l) = has_required_columns (map fst l')
  /\ process_row file_path (map fst l) idx (map snd l) m
     = process_row file_path (map fst l') idx (map snd l') m.
Proof.
  intros Hp Hnd. split.
  - assert (Hiff : has_required_columns (map fst l) = true
                   <-> has_required_columns (map fst l') = true).
    { rewrite !has_required_columns_In.
      pose proof (Permutation_map fst Hp) as Hp'.
      split; intros [H1 H2]; split;
        first [eapply Permutation_in; [exact Hp'|assumption]
              |eapply Permutation_in; [apply Permutation_sym; exact Hp'|assumption]]. }
    destruct (has_required_columns (map fst l)), (has_required_columns (map fst l'));
      try reflexivity; destruct Hiff as [H1 H2];
      [discriminate (H1 eq_refl)|discriminate (H2 eq_refl)].
  - unfold process_row. rewrite !row_get_labelled. unfold labelled_get.
    rewrite !(find_label_Permutation l l' _ Hp Hnd). reflexivity.
Qed.

Lemma column_order_is_irrelevant_witness :
  has_required_columns ["Name"; "#Cue"; "#Channel"]
  = has_required_columns ["#Channel"; "Name"; "#Cue"]
  /\ process_row "A.csv" ["Name"; "#Cue"; "#Channel"] 0
       [StrCell "Comet"; IntCell 7; IntCell 3] []
     = process_row "A.csv" ["#Channel"; "Name"; "#Cue"] 0
       [IntCell 3; StrCell "Comet"; IntCell 7] [].
Proof.
  apply (column_order_is_irrelevant
           [("Name", StrCell "Comet"); ("#Cue", IntCell 7); ("#Channel", IntCell 3)]
           [("#Channel", IntCell 3); ("Name", StrCell "Comet"); ("#Cue", IntCell 7)]
           "A.csv" 0 []).
  - apply Permutation_sym. apply (Permutation_cons_app [_; _] []). apply Permutation_refl.
  - repeat constructor; cbn [In]; intuition discriminate.
Defined.

(** ** From the output back to the files *)

(** X12: the report never points anywhere else than at a data row with
    valid keys: a location line names a path that was given and a line
    number of at least 4, the file has a row on that physical line, and
    the keys of that row are a pair whose block is in the output. *)
Theorem reported_location_is_a_valid_row fs file_paths f d :
  In (Location f d) (check_duplicate_channel_cue fs file_paths) ->
  In f file_paths /\ 4 <= d /\
  exists lines hd line c q,
    fs f = Some (Text lines)
    /\ physical_line lines 3 = Some hd
    /\ physical_line lines d = Some line
    /\ valid_key (names hd) (cells line) = Some (c, q)
    /\ In (DupFound c q) (check_duplicate_channel_cue fs file_paths).
Proof.
  intros Hin. apply in_check_output in Hin; [|reflexivity].
  destruct Hin as [Hin|Hin].
  { cbn [In] in Hin. unfold closing in Hin. destruct (negb _); intuition discriminate. }
  apply in_blocks_of in Hin as ([c q] & occs & Hm & Hlen & Hmsg).
  apply in_report_block in Hmsg.
  destruct Hmsg as [Heq|[Heq|[Heq|(f' & l & Hocc & Heq)]]]; try discriminate.
  injection Heq as -> ->.
  pose proof (lookup_In _ _ _ (NoDup_keys_final_index fs file_paths) Hm) as Hlk.
  rewrite <- Hlk in Hocc, Hlen.
  assert (Hdup : In (DupFound c q) (check_duplicate_channel_cue fs file_paths))
    by (apply in_check_DupFound; exact Hlen).
  rewrite lookup_final_index in Hocc. apply in_occurrences_of in Hocc.
  apply entries_real_rows in Hocc
    as (Hf & idx & lines & hd & line & Hfs & Hhd & -> & Hline & _ & Hv).
  split; [exact Hf|]. split; [lia|].
  exists lines, hd, line, c, q.
  replace (idx + 3 + 1) with (idx + 4) by lia. auto.
Qed.

Lemma reported_location_is_a_valid_row_witness :
  In "A.csv" ["C.csv"; "A.csv"] /\ 4 <= 6 /\
  exists lines hd line c q,
    Samples.fs "A.csv" = Some (Text lines)
    /\ physical_line lines 3 = Some hd
    /\ physical_line lines 6 = Some line
    /\ valid_key (names hd) (cells line) = Some (c, q)
    /\ In (DupFound c q) (check_duplicate_channel_cue Samples.fs ["C.csv"; "A.csv"]).
Proof.
  apply (reported_location_is_a_valid_row Samples.fs ["C.csv"; "A.csv"] "A.csv" 6).
  vm_compute. do 11 right. left; reflexivity.
Defined.

Lemma in_rows_warnings file_path cols n f rs : forall i,
  In (WarnBadRow n f) (rows_warnings file_path cols i rs) ->
  f = file_path /\ exists idx row,
    n = i + idx + 3 /\ nth_error rs idx = Some row
    /\ row_status cols row = InvalidKey.
Proof.
  induction rs as [|row rs IH]; intros i; [intros []|].
  rewrite rows_warnings_cons.
  destruct (row_status cols row) as [|p| |e] eqn:Hst.
  - intros H. apply IH in H as (-> & idx & row' & -> & Hnth & Hs).
    split; [reflexivity|]. exists (S idx), row'. repeat split; [lia|exact Hnth|exact Hs].
  - intros H. apply IH in H as (-> & idx & row' & -> & Hnth & Hs).
    split; [reflexivity|]. exists (S idx), row'. repeat split; [lia|exact Hnth|exact Hs].
  - intros [H|H].
    + injection H as <- <-. split; [reflexivity|].
      exists 0, row. repeat split; [lia|exact Hst].
    + apply IH in H as (-> & idx & row' & -> & Hnth & Hs).
      split; [reflexivity|]. exists (S idx), row'. repeat split; [lia|exact Hnth|exact Hs].
  - intros [].
Qed.

Lemma in_process_file_warning fs file_path m n f :
  In (WarnBadRow n f) (snd (process_file fs file_path m)) ->
  exists df, frame_of fs file_path = Some df
             /\ In (WarnBadRow n f) (rows_warnings file_path (columns df) 0 (rows df)).
Proof.
  unfold process_file, frame_of.
  destruct (fs file_path) as [content|];
    [|cbn [snd In]; intuition discriminate].
  destruct (read_csv content) as [df|e];
    [|cbn [snd In]; destruct e; cbn [handler]; intuition discriminate].
  destruct (has_required_columns (columns df)); cbn [negb];
    [|cbn [snd In]; intuition discriminate].
  destruct (iterrows_loop_messages file_path (columns df) (rows df) 0 m) as [H1 H2].
  destruct (iterrows_loop file_path (columns df) 0 (rows df) m) as [[m' out] exn].
  cbn [fst snd] in *. subst out exn. intros Hin. exists df. split; [reflexivity|].
  destruct (no_fatal_row (columns df) (rows df)); cbn [snd] in Hin; [exact Hin|].
  apply in_app_iff in Hin as [Hin|Hin]; [exact Hin|].
  cbn [In handler] in Hin. intuition discriminate.
Qed.

Lemma in_process_files_messages fs msg file_paths : forall m,
  In msg (snd (process_files fs file_paths m)) ->
  exists file_path m', In file_path file_paths
                       /\ In msg (snd (process_file fs file_path m')).
Proof.
  induction file_paths as [|f rest IH]; intros m; [intros []|].
  cbn [process_files].
  destruct (process_file fs f m) as [m1 o1] eqn:Hpf.
  destruct (process_files fs rest m1) as [m2 o2] eqn:Hpfs.
  cbn [snd]. rewrite in_app_iff. intros [Hin|Hin].
  - exists f, m. split; [left; reflexivity|]. rewrite Hpf. exact Hin.
  - destruct (IH m1) as (f' & m' & Hf' & Hin'); [rewrite Hpfs; exact Hin|].
    exists f', m'. split; [right; exact Hf'|exact Hin'].
Qed.

(** X13: a row warning always stands for a real row: it names a path
    that was given, and with the number n it carries, the file has on
    its physical line n + 1 a data row with both key values present whose
    conversion raises ValueError. *)
Theorem row_warning_is_a_real_row fs file_paths n f :
  In (WarnBadRow n f) (check_duplicate_channel_cue fs file_paths) ->
  In f file_paths /\ 3 <= n /\
  exists lines hd line,
    fs f = Some (Text lines)
    /\ physical_line lines 3 = Some hd
    /\ physical_line lines (n + 1) = Some line
    /\ missing_key (names hd) (cells line) = false
    /\ convert_keys (names hd) (cells line) = Raise ValueError.
Proof.
  intros Hin.
  assert (Hd : In (WarnBadRow n f) (snd (process_files fs file_paths []))).
  { unfold check_duplicate_channel_cue in Hin.
    destruct (process_files fs file_paths []) as [m out]. cbn [snd].
    rewrite report_loop_blocks in Hin.
    rewrite !in_app_iff in Hin. destruct Hin as [H|[H|[H|[H|H]]]];
      try exact H;
      try (cbn [In] in H; unfold closing in H; try destruct (negb _);
           intuition discriminate).
    pose proof (blocks_of_block_msgs m) as Hb. rewrite forallb_forall in Hb.
    apply Hb in H. discriminate. }
  apply in_process_files_messages in Hd as (path & m' & Hpath & Hd).
  apply in_process_file_warning in Hd as (df & Hdf & Hd).
  apply in_rows_warnings in Hd as (-> & idx & row & -> & Hnth & Hst).
  apply frame_of_Some in Hdf as (l1 & l2 & hd & data & Hfs & -> & _).
  cbn [columns rows] in *.
  split; [exact Hpath|]. split; [lia|].
  rewrite nth_error_map in Hnth.
  destruct (nth_error data idx) as [line|] eqn:Hline; [|discriminate].
  cbn in Hnth. injection Hnth as <-.
  exists (l1 :: l2 :: hd :: data), hd, line.
  split; [exact Hfs|]. split; [reflexivity|]. split.
  - replace (0 + idx + 3 + 1) with (S (S (S (S idx)))) by lia. exact Hline.
  - unfold row_status in Hst.
    destruct (missing_key (names hd) (cells line)); [discriminate|].
    split; [reflexivity|].
    destruct (convert_keys (names hd) (cells line)) as [p|[]]; try discriminate.
    reflexivity.
Qed.

Lemma row_warning_is_a_real_row_witness :
  In "C.csv" ["A.csv"; "C.csv"] /\ 3 <= 3 /\
  exists lines hd line,
    Samples.fs "C.csv" = Some (Text lines)
    /\ physical_line lines 3 = Some hd
    /\ physical_line lines (3 + 1) = Some line
    /\ missing_key (names hd) (cells line) = false
    /\ convert_keys (names hd) (cells line) = Raise ValueError.
Proof.
  apply (row_warning_is_a_real_row Samples.fs ["A.csv"; "C.csv"] 3 "C.csv").
  vm_compute. do 4 right. left; reflexivity.
Defined.

(** ** The order of the occurrences of a pair *)

Lemma lines_of_rows_entries_sorted file_path cols p rs : forall i,
  StronglySorted lt
    (map snd (occurrences_of p (rows_entries file_path cols i rs))).
Proof.
  induction rs as [|row rs IH]; intros i; [constructor|].
  rewrite rows_entries_cons, occurrences_of_app, map_app.
  unfold row_entry; cbn [fst snd].
  destruct (valid_key cols row) as [p'|]; [|apply IH].
  unfold occurrences_of at 1; cbn [filter fst].
  destruct (pair_eqb p' p); cbn [map snd app]; [|apply IH].
  constructor; [apply IH|].
  apply Forall_forall. intros ln Hin.
  apply in_map_iff in Hin as ([f ln'] & Heq & Hin). cbn [snd] in Heq; subst ln'.
  apply in_occurrences_of, rows_entries_line_ge in Hin. lia.
Qed.

(** X14: the occurrences of a pair are listed file by file in the order
    of the paths given, and those of one file carry that file's path and
    strictly increasing line numbers (row order). *)
Theorem occurrences_in_file_then_row_order fs file_paths p :
  lookup p (final_index fs file_paths)
  = flat_map (fun f => occurrences_of p (file_entries fs f)) file_paths
  /\ forall f,
       Forall (fun o => fst o = f) (occurrences_of p (file_entries fs f))
       /\ StronglySorted lt (map snd (occurrences_of p (file_entries fs f))).
Proof.
  split.
  - rewrite lookup_final_index. unfold entries.
    induction file_paths as [|f rest IH]; [reflexivity|].
    cbn [flat_map]. rewrite occurrences_of_app, IH. reflexivity.
  - intros f. split.
    + apply Forall_forall. intros [f' ln] Hin. cbn [fst].
      apply in_occurrences_of in Hin. eapply file_entries_same_file; eauto.
    + unfold file_entries. destruct (frame_of fs f) as [df|];
        [apply lines_of_rows_entries_sorted|constructor].
Qed.

(** ** The report and the dictionary *)

(** X15: the list the dictionary holds for a pair is the list of its
    reached rows with valid keys; a pair whose list has k >= 2
    occurrences is printed in exactly one block, with the count k and
    exactly the k locations of the list in its order; a pair with a
    shorter list is not printed; and every occurrence of the list is a
    data row of a file that was given, the stored line plus one being
    its physical line. *)
Theorem duplicates_reported_with_all_occurrences fs file_paths c q :
  let occs := occurrences_of (c, q) (entries fs file_paths) in
  let out := check_duplicate_channel_cue fs file_paths in
  lookup (c, q) (final_index fs file_paths) = occs
  /\ (2 <= List.length occs -> prints_block out (c, q) occs)
  /\ (List.length occs < 2 -> ~ In (DupFound c q) out)
  /\ (forall f ln, In (f, ln) occs ->
        In f file_paths /\
        exists lines hd line,
          fs f = Some (Text lines)
          /\ physical_line lines 3 = Some hd
          /\ physical_line lines (ln + 1) = Some line
          /\ valid_key (names hd) (cells line) = Some (c, q)).
Proof.
  cbv zeta. rewrite <- lookup_final_index.
  split; [reflexivity|]. split; [apply prints_block_check|]. split.
  - intros Hlt Hin. apply in_check_DupFound in Hin. lia.
  - intros f ln Hin.
    rewrite lookup_final_index in Hin. apply in_occurrences_of in Hin.
    apply entries_real_rows in Hin
      as (Hf & idx & lines & hd & line & Hfs & Hhd & -> & Hline & _ & Hv).
    split; [exact Hf|]. exists lines, hd, line.
    replace (idx + 3 + 1) with (idx + 4) by lia. auto.
Qed.

Lemma duplicates_reported_with_all_occurrences_witness :
  prints_block (check_duplicate_channel_cue Samples.fs ["A.csv"]) (1%Z, 1%Z)
    [("A.csv", 3); ("A.csv", 5)].
Proof.
  apply (proj1 (proj2 (duplicates_reported_with_all_occurrences
                         Samples.fs ["A.csv"] 1%Z 1%Z))).
  vm_compute. repeat constructor.
Defined.
